(** * Lunas: the dependency container, the callback registry and the game loop

    A shallow embedding of the TypeScript of the Lunas blog posts:
    - [Service] and [inject] (src/lunas/di, post of 2025-04-18),
    - [Game.addCallback] and [Game.removeCallback] (src/lunas/game.ts, same
      post),
    - the [Game] class with its constructor and [loop] (post of 2025-04-17),
      whose [update] is empty and whose [draw] clears the screen.
    The code that calls the registered callbacks is not in the posts; it is
    modelled from the specification in the definitions named
    [..._dispatching] and in [dispatch], each marked as such.

    Clock readings and the delta times computed from them are idealised as
    exact rationals ([Q], milliseconds as [performance.now()] reports them):
    the source computes in binary64, so only the sign of a delta, whether
    it is zero, and which readings it was computed from are stated below,
    never a fact that needs exact sums. Function objects are references
    compared by identity, their bodies live in a separate table. *)

From Stdlib Require Import ZArith QArith Lqa List Lia String Ascii Bool.
From stdpp Require Import gmap strings.
Import ListNotations.

(** ** JavaScript values, truthiness and completions *)

Module JS.

(** An IEEE number, as far as truthiness can tell its values apart. *)
Inductive number : Type :=
| NaN
| Infinity (negative : bool)
| NegZero
| Finite (q : Q).

(** [Object ref] is an object made by the program; [Intrinsic name] is a
    built-in object of the realm: [Object.prototype] or the value of one of
    its properties. *)
Inductive value : Type :=
| Undefined
| Null
| Boolean (b : bool)
| Number (n : number)
| Str (s : string)
| BigInt (z : Z)
| Object (ref : nat)
| Intrinsic (name : string).

(** ECMAScript ToBoolean, the test behind [if (!x)]. *)
Definition ToBoolean (v : value) : bool :=
  match v with
  | Undefined | Null => false
  | Boolean b => b
  | Number NaN | Number NegZero => false
  | Number (Infinity _) => true
  | Number (Finite q) => negb (Qeq_bool q 0)
  | Str s => negb (String.eqb s EmptyString)
  | BigInt z => negb (Z.eqb z 0)
  | Object _ | Intrinsic _ => true
  end.

(** [new Error(message)]. *)
Inductive Error : Type := mkError (message : string).

(** How a call ends: it returns or it throws. *)
Inductive completion (A : Type) : Type :=
| Normal (a : A)
| Throw (e : Error).
Arguments Normal {A} a.
Arguments Throw {A} e.

(** The character that delimits the quoted names in the messages. *)
Definition dquote : string := String (ascii_of_nat 34) EmptyString.

End JS.

(** ** The dependency container (src/lunas/di/service.ts) *)

Module Service.
Import JS.

(** The names of the properties of [Object.prototype], which every plain
    object inherits (ECMAScript 20.1.3 and B.2.2). *)
Definition object_prototype_names : list string :=
  ["constructor"; "hasOwnProperty"; "isPrototypeOf"; "propertyIsEnumerable";
   "toLocaleString"; "toString"; "valueOf"; "__defineGetter__"; "__defineSetter__";
   "__lookupGetter__"; "__lookupSetter__"; "__proto__"]%string.

Definition inherited_name (name : string) : bool :=
  existsb (String.eqb name) object_prototype_names.

(** What the container inherits from: [Object.prototype], as every object
    literal does at first, or nothing, once [null] was assigned to
    [__proto__]. *)
Inductive Prototype : Type := ObjectPrototype | NullPrototype.

(** The object [CONTAINER]: its own properties and its prototype. *)
Record container : Type := mkContainer {
  own : gmap string value;
  proto : Prototype
}.

(** [private static readonly CONTAINER: Record<string, any> = {}]. *)
Definition CONTAINER : container := mkContainer ∅ ObjectPrototype.

Definition Object_prototype : value := Intrinsic "Object.prototype".

(** What [Object.prototype] answers for [name]: the getter of [__proto__]
    yields the prototype of the container, the other names are built-in
    functions, anything else is [undefined]. *)
Definition inherited (name : string) : value :=
  if String.eqb name "__proto__" then Object_prototype
  else if inherited_name name then Intrinsic name
  else Undefined.

(** [Service.CONTAINER[name]]: the own property, else what the prototype
    chain answers. *)
Definition prop (c : container) (name : string) : value :=
  match own c !! name with
  | Some v => v
  | None =>
      match proto c with
      | ObjectPrototype => inherited name
      | NullPrototype => Undefined
      end
  end.

(** [Service.CONTAINER[name] = v]. An own property is overwritten; else a
    new own property is created, except under the name [__proto__] while
    the container inherits the setter of [Object.prototype]: that setter
    ignores a primitive, drops the prototype for [null] and replaces it for
    an object. A container whose prototype is another object behaves as
    that object decides; that case is outside the model ([None]). *)
Definition assign (name : string) (v : value) (c : container) : option container :=
  match own c !! name, proto c with
  | None, ObjectPrototype =>
      if String.eqb name "__proto__" then
        match v with
        | Null => Some (mkContainer (own c) NullPrototype)
        | Object _ => None
        | Intrinsic n => if String.eqb n "Object.prototype" then Some c else None
        | _ => Some c
        end
      else Some (mkContainer (<[name := v]> (own c)) (proto c))
  | _, _ => Some (mkContainer (<[name := v]> (own c)) (proto c))
  end.

Definition does_not_exist (name : string) : Error :=
  mkError ("Error: Service " ++ dquote ++ name ++ dquote ++ " does not exist.")%string.

Definition get (name : string) (c : container) : completion value :=
  let service := prop c name in
  if negb (ToBoolean service) then Throw (does_not_exist name)
  else Normal service.

Definition add (name : string) (service : value) (c : container) : option container :=
  assign name service c.

(** [delete Service.CONTAINER[name]] removes an own property only. *)
Definition remove (name : string) (c : container) : container :=
  if ToBoolean (prop c name) then mkContainer (delete name (own c)) (proto c) else c.


End Service.

(** ** The inject decorator (src/lunas/di/inject.ts) *)



(** ** Arrays of function references *)

(** A function object; [indexOf] compares them with [===], that is by
    identity. *)
Abbreviation FnRef := nat.

Module Array.

(** [arr.push(x)]. *)
Definition push (arr : list FnRef) (x : FnRef) : list FnRef := arr ++ [x].

Fixpoint indexOf_from (arr : list FnRef) (x : FnRef) (i : Z) : Z :=
  match arr with
  | [] => (-1)%Z
  | y :: rest => if Nat.eqb y x then i else indexOf_from rest x (i + 1)%Z
  end.

(** [arr.indexOf(x)]: the first index holding [x], or -1. *)
Definition indexOf (arr : list FnRef) (x : FnRef) : Z := indexOf_from arr x 0%Z.

(** [arr.splice(start, deleteCount)], the array that is left. A negative
    [start] counts from the end; both arguments are clamped to the array. *)
Definition splice (arr : list FnRef) (start deleteCount : Z) : list FnRef :=
  let len := Z.of_nat (length arr) in
  let from := if (start <? 0)%Z then Z.max (len + start) 0 else Z.min start len in
  let count := Z.min (Z.max deleteCount 0) (len - from) in
  firstn (Z.to_nat from) arr ++ skipn (Z.to_nat (from + count)) arr.

End Array.

(** ** The game class *)

(** [keyof GameCallback]. *)
Inductive GameCallbackKey : Type := Kupdate | Kdraw | KonFocus | KonBlur | KonResize.

Definition GameCallbackKey_eqb (a b : GameCallbackKey) : bool :=
  match a, b with
  | Kupdate, Kupdate | Kdraw, Kdraw | KonFocus, KonFocus
  | KonBlur, KonBlur | KonResize, KonResize => true
  | _, _ => false
  end.

(** [this.callbacks]: one array of functions per key. *)
Record Callbacks : Type := mkCallbacks {
  cb_update : list FnRef;
  cb_draw : list FnRef;
  cb_onFocus : list FnRef;
  cb_onBlur : list FnRef;
  cb_onResize : list FnRef
}.

(** Modelled from the spec: the initialiser of [this.callbacks] is not part
    of the posts; the registry is created empty when the game is
    constructed (specification, 3). *)
Definition no_callbacks : Callbacks := mkCallbacks [] [] [] [] [].

(** [callbacks[type]]. *)
Definition cb_get (type : GameCallbackKey) (c : Callbacks) : list FnRef :=
  match type with
  | Kupdate => cb_update c
  | Kdraw => cb_draw c
  | KonFocus => cb_onFocus c
  | KonBlur => cb_onBlur c
  | KonResize => cb_onResize c
  end.

(** The in-place mutation of [callbacks[type]]. *)
Definition cb_set (type : GameCallbackKey) (arr : list FnRef) (c : Callbacks) : Callbacks :=
  match type with
  | Kupdate => mkCallbacks arr (cb_draw c) (cb_onFocus c) (cb_onBlur c) (cb_onResize c)
  | Kdraw => mkCallbacks (cb_update c) arr (cb_onFocus c) (cb_onBlur c) (cb_onResize c)
  | KonFocus => mkCallbacks (cb_update c) (cb_draw c) arr (cb_onBlur c) (cb_onResize c)
  | KonBlur => mkCallbacks (cb_update c) (cb_draw c) (cb_onFocus c) arr (cb_onResize c)
  | KonResize => mkCallbacks (cb_update c) (cb_draw c) (cb_onFocus c) (cb_onBlur c) arr
  end.

(** [addCallback(type, callback)]: [this.callbacks[type].push(callback)]. *)
Definition addCallback (type : GameCallbackKey) (callback : FnRef) (c : Callbacks)
  : Callbacks :=
  cb_set type (Array.push (cb_get type c) callback) c.

(** [removeCallback(type, callback)]. *)
Definition removeCallback (type : GameCallbackKey) (callback : FnRef) (c : Callbacks)
  : Callbacks :=
  let index := Array.indexOf (cb_get type c) callback in
  if negb (Z.eqb index (-1)) then cb_set type (Array.splice (cb_get type c) index 1) c
  else c.

(** *** The host: document, WebGL, clock and frame scheduler *)

Inductive GLContext : Type := WebGL2 | WebGL1.

(** What [canvas.getContext] answers for ['webgl2'] and for ['webgl']. *)
Record Canvas : Type := mkCanvas {
  webgl2 : option GLContext;
  webgl : option GLContext
}.

(** The two arrow functions handed to [requestAnimationFrame]: the one of
    the constructor and the one of [loop]. *)
Inductive Frame : Type := FirstFrame | LoopFrame.

(** What the outside sees of a run. *)
Inductive Event : Type :=
| CallUpdate (dt : Q)
| CallDraw
| GlClearColor (r g b a : Q)
| GlClear (mask : Z)
| Invoke (type : GameCallbackKey) (f : FnRef) (args : list Q)
| Report (type : GameCallbackKey) (f : FnRef) (e : JS.Error).

Record Host : Type := mkHost {
  (** the n-th answer of [performance.now()], in milliseconds *)
  clock : nat -> Q;
  (** how many answers were consumed *)
  clock_reads : nat;
  (** [document.getElementById('lunasCanvas')] *)
  lunasCanvas : option Canvas;
  (** callbacks waiting for the next animation frame *)
  raf : list Frame;
  log : list Event
}.

Record Game : Type := mkGame {
  lastFrameTime : Q;
  gl : GLContext;
  callbacks : Callbacks
}.

Record Runtime : Type := mkRuntime { this : Game; host : Host }.

Definition COLOR_BUFFER_BIT : Z := 16384.

(** What a registered function does when it is called: it may register and
    unregister callbacks and it may throw. *)
Inductive Stmt : Type :=
| SAddCallback (type : GameCallbackKey) (callback : FnRef)
| SRemoveCallback (type : GameCallbackKey) (callback : FnRef)
| SThrow (message : string).

(** *** A state and exception monad over the runtime *)

Definition M (A : Type) : Type := Runtime -> JS.completion A * Runtime.

Definition ret {A} (a : A) : M A := fun s => (JS.Normal a, s).

Definition bind {A B} (m : M A) (k : A -> M B) : M B :=
  fun s =>
    match m s with
    | (JS.Normal a, s') => k a s'
    | (JS.Throw e, s') => (JS.Throw e, s')
    end.

Definition throw {A} (e : JS.Error) : M A := fun s => (JS.Throw e, s).

(** [try { m } catch (e) { handler(e) }]. *)
Definition try_catch {A} (m : M A) (handler : JS.Error -> M A) : M A :=
  fun s =>
    match m s with
    | (JS.Normal a, s') => (JS.Normal a, s')
    | (JS.Throw e, s') => handler e s'
    end.

Declare Scope js_scope.
Delimit Scope js_scope with js.
Notation "x <- m ;; k" := (bind m (fun x => k))
  (at level 100, m at next level, right associativity) : js_scope.
Notation "m ;; k" := (bind m (fun _ => k))
  (at level 100, right associativity) : js_scope.

Definition set_lastFrameTime (t : Q) : M unit :=
  fun s => (JS.Normal tt,
            mkRuntime (mkGame t (gl (this s)) (callbacks (this s))) (host s)).

Definition set_callbacks (c : Callbacks) : M unit :=
  fun s => (JS.Normal tt,
            mkRuntime (mkGame (lastFrameTime (this s)) (gl (this s)) c) (host s)).

Definition get_this : M Game := fun s => (JS.Normal (this s), s).

Definition emit (e : Event) : M unit :=
  fun s =>
    let h := host s in
    (JS.Normal tt,
     mkRuntime (this s)
       (mkHost (clock h) (clock_reads h) (lunasCanvas h) (raf h) (log h ++ [e]))).

(** [performance.now()]. *)
Definition performance_now : M Q :=
  fun s =>
    let h := host s in
    (JS.Normal (clock h (clock_reads h)),
     mkRuntime (this s)
       (mkHost (clock h) (S (clock_reads h)) (lunasCanvas h) (raf h) (log h))).

(** [requestAnimationFrame(f)]. *)
Definition requestAnimationFrame (f : Frame) : M unit :=
  fun s =>
    let h := host s in
    (JS.Normal tt,
     mkRuntime (this s)
       (mkHost (clock h) (clock_reads h) (lunasCanvas h) (raf h ++ [f]) (log h))).

Section GameLoop.
Local Open Scope js_scope.

(** [private update(_dt)]: the body is empty; the log records the call and
    its argument. *)
Definition update (dt : Q) : M unit :=
  emit (CallUpdate dt).

(** [private draw()]: clears the screen. *)
Definition draw : M unit :=
  emit CallDraw ;;
  emit (GlClearColor 0 0 0 1) ;;
  emit (GlClear COLOR_BUFFER_BIT).

(** [private loop()]. The subtraction and the division are those of the
    source, on rationals instead of binary64 numbers. *)
Definition loop : M unit :=
  now <- performance_now ;;
  g <- get_this ;;
  let timePassed := (now - lastFrameTime g)%Q in
  set_lastFrameTime now ;;
  let dt := (timePassed / 1000)%Q in
  update dt ;;
  draw ;;
  requestAnimationFrame LoopFrame.

(** The arrow function of the constructor, and the one of [loop]. *)
Definition run_frame (f : Frame) : M unit :=
  match f with
  | FirstFrame =>
      now <- performance_now ;;
      set_lastFrameTime now ;;
      loop
  | LoopFrame => loop
  end.

End GameLoop.

(** One scheduler tick: the browser takes the oldest pending callback and
    runs it with [frame]. *)
Definition schedule (frame : Frame -> M unit) (s : Runtime)
  : JS.completion unit * Runtime :=
  let h := host s in
  match raf h with
  | [] => (JS.Normal tt, s)
  | f :: pending =>
      frame f
        (mkRuntime (this s)
           (mkHost (clock h) (clock_reads h) (lunasCanvas h) pending (log h)))
  end.

(** [n] scheduler ticks in a row. *)
Fixpoint run (step : Runtime -> JS.completion unit * Runtime) (n : nat) (s : Runtime)
  : Runtime :=
  match n with
  | O => s
  | S n' => snd (step (run step n' s))
  end.

Definition tick (s : Runtime) : JS.completion unit * Runtime := schedule run_frame s.

Definition ticks (n : nat) (s : Runtime) : Runtime := run tick n s.

Section Dispatching.
Local Open Scope js_scope.

(** The bodies of the registered functions, by reference and arguments. *)
Variable body : FnRef -> list Q -> list Stmt.

Fixpoint exec (b : list Stmt) : M unit :=
  match b with
  | [] => ret tt
  | SAddCallback type callback :: rest =>
      g <- get_this ;;
      set_callbacks (addCallback type callback (callbacks g)) ;;
      exec rest
  | SRemoveCallback type callback :: rest =>
      g <- get_this ;;
      set_callbacks (removeCallback type callback (callbacks g)) ;;
      exec rest
  | SThrow message :: _ => throw (JS.mkError message)
  end.

(** One call [f(...args)] of a subscriber of [type]. *)
Definition call (type : GameCallbackKey) (f : FnRef) (args : list Q) : M unit :=
  emit (Invoke type f args) ;;
  exec (body f args).

Fixpoint dispatch_over (type : GameCallbackKey) (args : list Q) (snapshot : list FnRef)
  : M unit :=
  match snapshot with
  | [] => ret tt
  | f :: rest =>
      try_catch (call type f args) (fun e => emit (Report type f e)) ;;
      dispatch_over type args rest
  end.

(** Modelled from the spec: [dispatch(kind, ...args)], the code that calls
    the registered functions, is not part of the posts. Following the
    specification (4.2, 4.3) it invokes every subscriber in the sequence
    for [kind], in insertion order, over a snapshot taken when the call
    starts; a subscriber that throws is reported and the pass goes on with
    the next one. *)
Definition dispatch (type : GameCallbackKey) (args : list Q) : M unit :=
  g <- get_this ;;
  dispatch_over type args (cb_get type (callbacks g)).

(** Modelled from the spec: the [update] of the game with callbacks is not
    part of the posts (the one they print, [update] above, calls nobody).
    Following the specification (4.3) a tick dispatches [update] with the
    delta time: the pass over the update subscribers stands where the
    source has its placeholder. *)
Definition update_dispatching (dt : Q) : M unit :=
  update dt ;;
  dispatch Kupdate [dt].

(** Modelled from the spec: the [draw] of the game with callbacks, not part
    of the posts: the [draw] above, then the pass over the draw subscribers
    (specification, 4.3). *)
Definition draw_dispatching : M unit :=
  draw ;;
  dispatch Kdraw [].

(** Modelled from the spec: the loop of the game with callbacks: [loop]
    above, with the two methods that dispatch in the place of [update] and
    [draw] (specification, 4.3: sample, dispatch update, dispatch draw,
    schedule the next tick). *)
Definition loop_dispatching : M unit :=
  now <- performance_now ;;
  g <- get_this ;;
  let timePassed := (now - lastFrameTime g)%Q in
  set_lastFrameTime now ;;
  let dt := (timePassed / 1000)%Q in
  update_dispatching dt ;;
  draw_dispatching ;;
  requestAnimationFrame LoopFrame.

(** Modelled from the spec: the two frames of the game with callbacks. *)
Definition run_frame_dispatching (f : Frame) : M unit :=
  match f with
  | FirstFrame =>
      now <- performance_now ;;
      set_lastFrameTime now ;;
      loop_dispatching
  | LoopFrame => loop_dispatching
  end.

(** Modelled from the spec: a scheduler tick of the game with callbacks. *)
Definition tick_dispatching (s : Runtime) : JS.completion unit * Runtime :=
  schedule run_frame_dispatching s.

(** Modelled from the spec: [n] ticks of the game with callbacks. *)
Definition ticks_dispatching (n : nat) (s : Runtime) : Runtime :=
  run tick_dispatching n s.

End Dispatching.

(** [private getGLContext(canvas)]. *)
Definition getGLContext (canvas : Canvas) : JS.completion GLContext :=
  match webgl2 canvas with
  | Some gl => JS.Normal gl
  | None =>
      match webgl canvas with
      | Some gl => JS.Normal gl
      | None => JS.Throw (JS.mkError "Unable to initialize WebGL context.")
      end
  end.

Definition canvas_not_found : JS.Error :=
  JS.mkError ("Canvas element with id " ++ JS.dquote ++ "lunasCanvas" ++ JS.dquote
              ++ " not found")%string.

(** [new Game()]: the constructor creates and starts the game. When it
    throws there is no instance. *)
Definition new_Game (h : Host) : JS.completion Game * Host :=
  match lunasCanvas h with
  | None => (JS.Throw canvas_not_found, h)
  | Some canvas =>
      match getGLContext canvas with
      | JS.Throw e => (JS.Throw e, h)
      | JS.Normal gl =>
          (JS.Normal (mkGame 0 gl no_callbacks),
           mkHost (clock h) (clock_reads h) (lunasCanvas h) (raf h ++ [FirstFrame]) (log h))
      end
  end.

(** The host puts (or removes) the canvas element in the document. *)
Definition set_lunasCanvas (c : option Canvas) (h : Host) : Host :=
  mkHost (clock h) (clock_reads h) c (raf h) (log h).

(** ** What a dispatch pass leaves in the log *)

Fixpoint throws (b : list Stmt) : option string :=
  match b with
  | [] => None
  | SThrow message :: _ => Some message
  | _ :: rest => throws rest
  end.

Definition call_log (body : FnRef -> list Q -> list Stmt)
    (type : GameCallbackKey) (args : list Q) (f : FnRef) : list Event :=
  Invoke type f args ::
  match throws (body f args) with
  | Some message => [Report type f (JS.mkError message)]
  | None => []
  end.

Definition dispatch_log (body : FnRef -> list Q -> list Stmt)
    (type : GameCallbackKey) (args : list Q) (snapshot : list FnRef) : list Event :=
  flat_map (call_log body type args) snapshot.

(** The functions a log shows as invoked for [type], in order. *)
Fixpoint invoked (type : GameCallbackKey) (l : list Event) : list FnRef :=
  match l with
  | [] => []
  | Invoke type' f _ :: rest =>
      if GameCallbackKey_eqb type' type then f :: invoked type rest
      else invoked type rest
  | _ :: rest => invoked type rest
  end.

(** The delta times a log shows as handed to [update]. *)
Fixpoint deltas (l : list Event) : list Q :=
  match l with
  | [] => []
  | CallUpdate dt :: rest => dt :: deltas rest
  | _ :: rest => deltas rest
  end.

Definition update_phase (e : Event) : bool :=
  match e with
  | CallUpdate _ | Invoke Kupdate _ _ | Report Kupdate _ _ => true
  | _ => false
  end.

Definition draw_phase (e : Event) : bool :=
  match e with
  | CallDraw | GlClearColor _ _ _ _ | GlClear _ | Invoke Kdraw _ _ | Report Kdraw _ _ => true
  | _ => false
  end.

(** The events of one pass of [loop] that starts with the last frame time
    [t] and reads [now] from the clock. *)
Definition loop_log (t now : Q) : list Event :=
  [CallUpdate ((now - t) / 1000); CallDraw; GlClearColor 0 0 0 1;
   GlClear COLOR_BUFFER_BIT].

(** The events of one pass of [loop_dispatching] that starts with the last
    frame time [t], reads [now] from the clock, finds the update subscribers
    [us] and, once these ran, the draw subscribers [ds]. *)
Definition frame_log (body : FnRef -> list Q -> list Stmt)
    (t now : Q) (us ds : list FnRef) : list Event :=
  [CallUpdate ((now - t) / 1000)]
  ++ dispatch_log body Kupdate [((now - t) / 1000)%Q] us
  ++ [CallDraw; GlClearColor 0 0 0 1; GlClear COLOR_BUFFER_BIT]
  ++ dispatch_log body Kdraw [] ds.

(** What the frame [f], run on [s], takes as the last frame time, reads as
    [now], and leaves as the number of consumed clock answers. *)
Definition frame_last (f : Frame) (s : Runtime) : Q :=
  match f with
  | FirstFrame => clock (host s) (clock_reads (host s))
  | LoopFrame => lastFrameTime (this s)
  end.

Definition frame_now (f : Frame) (s : Runtime) : Q :=
  match f with
  | FirstFrame => clock (host s) (S (clock_reads (host s)))
  | LoopFrame => clock (host s) (clock_reads (host s))
  end.

Definition frame_reads (f : Frame) (s : Runtime) : nat :=
  match f with
  | FirstFrame => S (S (clock_reads (host s)))
  | LoopFrame => S (clock_reads (host s))
  end.

(** No callback is registered with the frame scheduler: no tick will come. *)
Definition stopped (s : Runtime) : Prop := raf (host s) = [].

(** A document that holds the canvas, with WebGL2, and the clock [ck]. *)
Definition ready_host (ck : nat -> Q) : Host :=
  mkHost ck 0 (Some (mkCanvas (Some WebGL2) None)) [] [].

(** [new Game()] on [h], then the registrations [register] of the caller. *)
Definition start_on (h : Host) (register : Callbacks -> Callbacks) : option Runtime :=
  match new_Game h with
  | (JS.Normal g, h') =>
      Some (mkRuntime (mkGame (lastFrameTime g) (gl g) (register (callbacks g))) h')
  | (JS.Throw _, _) => None
  end.

(** A clock that answers 2000 ms twice and 1000 ms from then on. *)
Definition regressing_clock (n : nat) : Q :=
  match n with
  | O | S O => 2000
  | _ => 1000
  end.

(** A clock that advances by a tenth of a millisecond between two readings. *)
Definition advancing_clock (n : nat) : Q := 1000 + inject_Z (Z.of_nat n) / 10.

(** The game right after [new Game()] on [ready_host ck], once the caller
    registered the callbacks [c]. *)
Definition running_game (ck : nat -> Q) (c : Callbacks) : Runtime :=
  mkRuntime (mkGame 0 WebGL2 c)
    (mkHost ck 0 (Some (mkCanvas (Some WebGL2) None)) [FirstFrame] []).

(** Subscribers of which number 1 throws. *)
Definition faulty_one : FnRef -> list Q -> list Stmt :=
  fun f _ => if Nat.eqb f 1 then [SThrow "boom"] else [].

(** What the runs of the two loops share: a step that runs the oldest
    frame returns normally, leaves the frame of [loop] behind the pending
    ones, consumes the clock readings of that frame and logs one delta. *)
Definition frame_step (step : Runtime -> JS.completion unit * Runtime) : Prop :=
  forall s f pending,
    raf (host s) = f :: pending ->
    exists c evs,
      step s
      = (JS.Normal tt,
         mkRuntime (mkGame (frame_now f s) (gl (this s)) c)
           (mkHost (clock (host s)) (frame_reads f s) (lunasCanvas (host s))
              (pending ++ [LoopFrame]) (log (host s) ++ evs))) /\
      deltas evs = [((frame_now f s - frame_last f s) / 1000)%Q].

(** The runtime [s] after its callbacks became [c] and [evs] were logged. *)
Definition touched (s : Runtime) (c : Callbacks) (evs : list Event) : Runtime :=
  let h := host s in
  mkRuntime (mkGame (lastFrameTime (this s)) (gl (this s)) c)
    (mkHost (clock h) (clock_reads h) (lunasCanvas h) (raf h) (log h ++ evs)).

(** A game that was constructed by hand around a callback table, on a host
    whose clock stands still; used to evaluate the operations. *)
Definition still_host : Host := mkHost (fun _ => 0%Q) 0 None [] [].

Definition game_with (c : Callbacks) : Runtime :=
  mkRuntime (mkGame 0 WebGL2 c) still_host.

(** Subscribers that do nothing. *)
Definition quiet : FnRef -> list Q -> list Stmt := fun _ _ => [].

(** The error of [getGLContext]. *)
Definition webgl_unavailable : JS.Error :=
  JS.mkError "Unable to initialize WebGL context.".

(** * Properties *)

(** ** The dependency container *)

Lemma Service_get_unfold (name : string) (c : Service.container) :
  Service.get name c =
  if JS.ToBoolean (Service.prop c name) then JS.Normal (Service.prop c name)
  else JS.Throw (Service.does_not_exist name).
Proof. unfold Service.get. destruct (JS.ToBoolean _); reflexivity. Qed.

Lemma plain_not_proto (name : string) :
  Service.inherited_name name = false -> String.eqb name "__proto__" = false.
Proof.
  intros Hplain. destruct (String.eqb_spec name "__proto__") as [->|_]; [|reflexivity].
  vm_compute in Hplain. discriminate Hplain.
Qed.


Lemma Service_add_plain (name : string) (v : JS.value) (c : Service.container) :
  Service.inherited_name name = false ->
  Service.add name v c
  = Some (Service.mkContainer (<[name := v]> (Service.own c)) (Service.proto c)).
Proof.
  intros Hplain. unfold Service.add, Service.assign.
  rewrite (plain_not_proto name Hplain).
  destruct (Service.own c !! name), (Service.proto c); reflexivity.
Qed.

Lemma Service_get_stored (name : string) (w : JS.value) (c : Service.container) :
  Service.own c !! name = Some w ->
  Service.get name c
  = if JS.ToBoolean w then JS.Normal w else JS.Throw (Service.does_not_exist name).
Proof.
  intros Hown. rewrite Service_get_unfold. unfold Service.prop. rewrite Hown.
  reflexivity.
Qed.


Example Service_get_missing :
  Service.get "assets" Service.CONTAINER = JS.Throw (Service.does_not_exist "assets").
Proof. reflexivity. Qed.

Example Service_get_present :
  (c ← Service.add "assets" (JS.Object 1) Service.CONTAINER; Some (Service.get "assets" c))
  = Some (JS.Normal (JS.Object 1)).
Proof. reflexivity. Qed.

Example Service_get_after_null_prototype :
  (c ← Service.add "__proto__" JS.Null Service.CONTAINER; Some (Service.get "toString" c))
  = Some (JS.Throw (Service.does_not_exist "toString")).
Proof. reflexivity. Qed.



(** ** Arrays and the callback table *)

Example indexOf_finds_first : Array.indexOf [3; 5; 3] 3 = 0%Z /\ Array.indexOf [3; 5; 3] 5 = 1%Z.
Proof. split; reflexivity. Qed.

Example indexOf_missing : Array.indexOf [3; 5; 3] 9 = (-1)%Z.
Proof. reflexivity. Qed.

Example splice_middle : Array.splice [1; 2; 3] 1 1 = [1; 3].
Proof. reflexivity. Qed.

Example splice_from_end : Array.splice [1; 2; 3] (-1) 1 = [1; 2].
Proof. reflexivity. Qed.

Example removeCallback_twice_registered :
  removeCallback Kdraw 4 (mkCallbacks [] [4; 8; 4] [] [] []) = mkCallbacks [] [8; 4] [] [] [].
Proof. reflexivity. Qed.

Lemma indexOf_from_absent (arr : list FnRef) (x : FnRef) (i : Z) :
  ~ In x arr -> Array.indexOf_from arr x i = (-1)%Z.
Proof.
  revert i. induction arr as [|y rest IH]; intros i Hn; simpl; [reflexivity|].
  destruct (Nat.eqb_spec y x) as [->|Hne].
  - exfalso. apply Hn. left. reflexivity.
  - apply IH. intros Hin. apply Hn. right. exact Hin.
Qed.

Lemma indexOf_from_first (before after : list FnRef) (x : FnRef) (i : Z) :
  ~ In x before ->
  Array.indexOf_from (before ++ x :: after) x i = (i + Z.of_nat (length before))%Z.
Proof.
  revert i. induction before as [|y rest IH]; intros i Hn; simpl.
  - rewrite Nat.eqb_refl. lia.
  - destruct (Nat.eqb_spec y x) as [->|Hne].
    + exfalso. apply Hn. left. reflexivity.
    + rewrite IH; [lia|]. intros Hin. apply Hn. right. exact Hin.
Qed.

Lemma splice_one (before after : list FnRef) (x : FnRef) :
  Array.splice (before ++ x :: after) (Z.of_nat (length before)) 1 = before ++ after.
Proof.
  cbv beta zeta delta [Array.splice]. rewrite length_app. simpl length.
  destruct (Z.ltb_spec (Z.of_nat (length before)) 0) as [Hneg|_]; [lia|].
  rewrite Z.min_l by lia.
  rewrite Z.max_l by lia.
  rewrite Z.min_l by lia.
  rewrite Nat2Z.id.
  replace (Z.to_nat (Z.of_nat (length before) + 1)) with (length before + 1)%nat by lia.
  rewrite firstn_app, Nat.sub_diag, firstn_all. simpl firstn. rewrite app_nil_r.
  rewrite skipn_app, skipn_all2 by lia.
  replace (length before + 1 - length before)%nat with 1%nat by lia.
  reflexivity.
Qed.

Lemma first_occurrence (arr : list FnRef) (x : FnRef) :
  In x arr -> exists before after, arr = before ++ x :: after /\ ~ In x before.
Proof.
  induction arr as [|y rest IH]; intros Hin; [destruct Hin|].
  destruct (Nat.eq_dec y x) as [->|Hne].
  - exists [], rest. split; [reflexivity | intros []].
  - destruct Hin as [Heq|Hin]; [contradiction|].
    destruct (IH Hin) as (b & a & -> & Hb).
    exists (y :: b), a. split; [reflexivity|].
    intros [Heq|Hin']; [contradiction | exact (Hb Hin')].
Qed.

Lemma cb_get_set (type : GameCallbackKey) (arr : list FnRef) (c : Callbacks) :
  cb_get type (cb_set type arr c) = arr.
Proof. destruct type; reflexivity. Qed.

Lemma cb_get_set_other (type type' : GameCallbackKey) (arr : list FnRef) (c : Callbacks) :
  type' <> type -> cb_get type' (cb_set type arr c) = cb_get type' c.
Proof. destruct type, type'; intros H; try reflexivity; contradiction. Qed.

Lemma removeCallback_absent (type : GameCallbackKey) (callback : FnRef) (c : Callbacks) :
  ~ In callback (cb_get type c) -> removeCallback type callback c = c.
Proof.
  intros Hn. unfold removeCallback, Array.indexOf.
  rewrite indexOf_from_absent by exact Hn. reflexivity.
Qed.

Lemma removeCallback_first (type : GameCallbackKey) (callback : FnRef) (c : Callbacks)
    (before after : list FnRef) :
  cb_get type c = before ++ callback :: after ->
  ~ In callback before ->
  removeCallback type callback c = cb_set type (before ++ after) c.
Proof.
  intros Heq Hn. unfold removeCallback, Array.indexOf.
  rewrite Heq, indexOf_from_first by exact Hn.
  cbv zeta. destruct (Z.eqb_spec (0 + Z.of_nat (length before)) (-1)) as [Hminus|_]; [lia|].
  simpl negb. cbv iota. rewrite Z.add_0_l, splice_one. reflexivity.
Qed.

Lemma cb_get_addCallback (type : GameCallbackKey) (callback : FnRef) (c : Callbacks) :
  cb_get type (addCallback type callback c) = cb_get type c ++ [callback].
Proof. unfold addCallback, Array.push. apply cb_get_set. Qed.

Lemma count_occ_snoc (arr : list FnRef) (x : FnRef) :
  count_occ Nat.eq_dec (arr ++ [x]) x = S (count_occ Nat.eq_dec arr x).
Proof.
  rewrite count_occ_app. simpl. destruct (Nat.eq_dec _ _); [lia | contradiction].
Qed.

Lemma count_occ_remove_first (before after : list FnRef) (x : FnRef) :
  count_occ Nat.eq_dec (before ++ x :: after) x
  = S (count_occ Nat.eq_dec (before ++ after) x).
Proof.
  rewrite !count_occ_app. simpl. destruct (Nat.eq_dec _ _); [lia | contradiction].
Qed.

(** ** Dispatch and the loop with callbacks, step by step *)

Section DispatchingFacts.

Variable body : FnRef -> list Q -> list Stmt.

Lemma exec_spec (b : list Stmt) (t : Q) (g : GLContext) (c : Callbacks) (h : Host) :
  exists c',
    exec b (mkRuntime (mkGame t g c) h)
    = (match throws b with
       | Some message => JS.Throw (JS.mkError message)
       | None => JS.Normal tt
       end,
       mkRuntime (mkGame t g c') h).
Proof.
  revert c. induction b as [|st rest IH]; intros c.
  - exists c. reflexivity.
  - destruct st as [type callback|type callback|message].
    + destruct (IH (addCallback type callback c)) as [c' Hc'].
      exists c'. simpl. unfold bind, get_this, set_callbacks. simpl. exact Hc'.
    + destruct (IH (removeCallback type callback c)) as [c' Hc'].
      exists c'. simpl. unfold bind, get_this, set_callbacks. simpl. exact Hc'.
    + exists c. reflexivity.
Qed.

Lemma dispatch_over_spec (type : GameCallbackKey) (args : list Q) (snapshot : list FnRef)
    (t : Q) (g : GLContext) (c : Callbacks)
    (ck : nat -> Q) (rd : nat) (cv : option Canvas) (rf : list Frame) (lg : list Event) :
  exists c',
    dispatch_over body type args snapshot
      (mkRuntime (mkGame t g c) (mkHost ck rd cv rf lg))
    = (JS.Normal tt,
       mkRuntime (mkGame t g c')
         (mkHost ck rd cv rf (lg ++ dispatch_log body type args snapshot))).
Proof.
  revert c lg. induction snapshot as [|f rest IH]; intros c lg.
  - exists c. simpl. rewrite app_nil_r. reflexivity.
  - destruct (exec_spec (body f args) t g c
                (mkHost ck rd cv rf (lg ++ [Invoke type f args]))) as [c1 Hexec].
    simpl dispatch_over. unfold bind at 1. unfold try_catch, call.
    unfold bind at 1. unfold emit at 1. simpl. rewrite Hexec.
    unfold dispatch_log. simpl flat_map. unfold call_log at 1.
    destruct (throws (body f args)) as [message|].
    + unfold emit. simpl.
      destruct (IH c1 ((lg ++ [Invoke type f args])
                         ++ [Report type f (JS.mkError message)])) as [c' Hc'].
      exists c'. rewrite Hc'. unfold dispatch_log.
      rewrite <- !app_assoc. reflexivity.
    + destruct (IH c1 (lg ++ [Invoke type f args])) as [c' Hc'].
      exists c'. rewrite Hc'. unfold dispatch_log.
      rewrite <- !app_assoc. reflexivity.
Qed.

Lemma dispatch_spec (type : GameCallbackKey) (args : list Q)
    (t : Q) (g : GLContext) (c : Callbacks)
    (ck : nat -> Q) (rd : nat) (cv : option Canvas) (rf : list Frame) (lg : list Event) :
  exists c',
    dispatch body type args (mkRuntime (mkGame t g c) (mkHost ck rd cv rf lg))
    = (JS.Normal tt,
       mkRuntime (mkGame t g c')
         (mkHost ck rd cv rf (lg ++ dispatch_log body type args (cb_get type c)))).
Proof.
  unfold dispatch, bind, get_this. simpl. apply dispatch_over_spec.
Qed.

Lemma update_dispatching_spec (dt t : Q) (g : GLContext) (c : Callbacks)
    (ck : nat -> Q) (rd : nat) (cv : option Canvas) (rf : list Frame) (lg : list Event) :
  exists c',
    update_dispatching body dt (mkRuntime (mkGame t g c) (mkHost ck rd cv rf lg))
    = (JS.Normal tt,
       mkRuntime (mkGame t g c')
         (mkHost ck rd cv rf
            (lg ++ CallUpdate dt :: dispatch_log body Kupdate [dt] (cb_get Kupdate c)))).
Proof.
  destruct (dispatch_spec Kupdate [dt] t g c ck rd cv rf (lg ++ [CallUpdate dt]))
    as [c' Hc'].
  exists c'. unfold update_dispatching, update, bind, emit. simpl. rewrite Hc'.
  rewrite <- app_assoc. reflexivity.
Qed.

Lemma draw_dispatching_spec (t : Q) (g : GLContext) (c : Callbacks)
    (ck : nat -> Q) (rd : nat) (cv : option Canvas) (rf : list Frame) (lg : list Event) :
  exists c',
    draw_dispatching body (mkRuntime (mkGame t g c) (mkHost ck rd cv rf lg))
    = (JS.Normal tt,
       mkRuntime (mkGame t g c')
         (mkHost ck rd cv rf
            (lg ++ [CallDraw; GlClearColor 0 0 0 1; GlClear COLOR_BUFFER_BIT]
                ++ dispatch_log body Kdraw [] (cb_get Kdraw c)))).
Proof.
  destruct (dispatch_spec Kdraw [] t g c ck rd cv rf
              (((lg ++ [CallDraw]) ++ [GlClearColor 0 0 0 1]) ++ [GlClear COLOR_BUFFER_BIT]))
    as [c' Hc'].
  exists c'. unfold draw_dispatching, draw, bind, emit. simpl. rewrite Hc'.
  rewrite <- !app_assoc. reflexivity.
Qed.

Lemma loop_dispatching_spec (t : Q) (g : GLContext) (c : Callbacks)
    (ck : nat -> Q) (rd : nat) (cv : option Canvas) (rf : list Frame) (lg : list Event) :
  exists c1 c2,
    loop_dispatching body (mkRuntime (mkGame t g c) (mkHost ck rd cv rf lg))
    = (JS.Normal tt,
       mkRuntime (mkGame (ck rd) g c2)
         (mkHost ck (S rd) cv (rf ++ [LoopFrame])
            (lg ++ frame_log body t (ck rd) (cb_get Kupdate c) (cb_get Kdraw c1)))).
Proof.
  destruct (update_dispatching_spec ((ck rd - t) / 1000) (ck rd) g c ck (S rd) cv rf lg) as [c1 H1].
  destruct (draw_dispatching_spec (ck rd) g c1 ck (S rd) cv rf
              (lg ++ CallUpdate ((ck rd - t) / 1000)
                  :: dispatch_log body Kupdate [((ck rd - t) / 1000)%Q] (cb_get Kupdate c)))
    as [c2 H2].
  exists c1, c2.
  unfold loop_dispatching. unfold bind at 1. unfold performance_now at 1. cbv beta iota zeta.
  unfold bind at 1. unfold get_this at 1. cbv beta iota zeta.
  unfold bind at 1. unfold set_lastFrameTime at 1. cbv beta iota zeta.
  unfold bind at 1. cbn [this host lastFrameTime gl callbacks clock clock_reads
                         lunasCanvas raf log].
  rewrite H1. unfold bind at 1. rewrite H2.
  unfold requestAnimationFrame.
  cbn [this host lastFrameTime gl callbacks clock clock_reads lunasCanvas raf log].
  unfold frame_log. rewrite <- !app_assoc. reflexivity.
Qed.

End DispatchingFacts.

(** ** Logs *)

Lemma deltas_app (l1 l2 : list Event) : deltas (l1 ++ l2) = deltas l1 ++ deltas l2.
Proof.
  induction l1 as [|e l1 IH]; [reflexivity|].
  destruct e; simpl; rewrite IH; reflexivity.
Qed.

Lemma deltas_dispatch_log (body : FnRef -> list Q -> list Stmt)
    (type : GameCallbackKey) (args : list Q) (snapshot : list FnRef) :
  deltas (dispatch_log body type args snapshot) = [].
Proof.
  induction snapshot as [|f rest IH]; [reflexivity|].
  unfold dispatch_log in *. simpl. destruct (throws (body f args)); exact IH.
Qed.

Lemma deltas_frame_log (body : FnRef -> list Q -> list Stmt)
    (t now : Q) (us ds : list FnRef) :
  deltas (frame_log body t now us ds) = [((now - t) / 1000)%Q].
Proof.
  unfold frame_log. rewrite !deltas_app, !deltas_dispatch_log. reflexivity.
Qed.

Lemma GameCallbackKey_eqb_refl (type : GameCallbackKey) :
  GameCallbackKey_eqb type type = true.
Proof. destruct type; reflexivity. Qed.

Lemma invoked_dispatch_log (body : FnRef -> list Q -> list Stmt)
    (type : GameCallbackKey) (args : list Q) (snapshot : list FnRef) :
  invoked type (dispatch_log body type args snapshot) = snapshot.
Proof.
  induction snapshot as [|f rest IH]; [reflexivity|].
  unfold dispatch_log in *. simpl. rewrite GameCallbackKey_eqb_refl.
  destruct (throws (body f args)); simpl; rewrite IH; reflexivity.
Qed.

Lemma Invoke_in_dispatch_log (body : FnRef -> list Q -> list Stmt)
    (type : GameCallbackKey) (args : list Q) (snapshot : list FnRef) (f : FnRef) :
  In f snapshot -> In (Invoke type f args) (dispatch_log body type args snapshot).
Proof.
  intros Hin. unfold dispatch_log. apply in_flat_map.
  exists f. split; [exact Hin | left; reflexivity].
Qed.

Lemma Report_in_dispatch_log (body : FnRef -> list Q -> list Stmt)
    (type : GameCallbackKey) (args : list Q) (snapshot : list FnRef) (f : FnRef)
    (message : string) :
  In f snapshot -> throws (body f args) = Some message ->
  In (Report type f (JS.mkError message)) (dispatch_log body type args snapshot).
Proof.
  intros Hin Hthrows. unfold dispatch_log. apply in_flat_map.
  exists f. split; [exact Hin|]. unfold call_log. rewrite Hthrows.
  right. left. reflexivity.
Qed.

Lemma update_phase_dispatch_log (body : FnRef -> list Q -> list Stmt)
    (args : list Q) (snapshot : list FnRef) :
  forallb update_phase (dispatch_log body Kupdate args snapshot) = true.
Proof.
  induction snapshot as [|f rest IH]; [reflexivity|].
  unfold dispatch_log in *. simpl. destruct (throws (body f args)); exact IH.
Qed.

Lemma draw_phase_dispatch_log (body : FnRef -> list Q -> list Stmt)
    (args : list Q) (snapshot : list FnRef) :
  forallb draw_phase (dispatch_log body Kdraw args snapshot) = true.
Proof.
  induction snapshot as [|f rest IH]; [reflexivity|].
  unfold dispatch_log in *. simpl. destruct (throws (body f args)); exact IH.
Qed.

(** ** Ticks *)

Lemma dispatch_touched (body : FnRef -> list Q -> list Stmt)
    (type : GameCallbackKey) (args : list Q) (s : Runtime) :
  exists c',
    dispatch body type args s
    = (JS.Normal tt,
       touched s c' (dispatch_log body type args (cb_get type (callbacks (this s))))).
Proof.
  destruct s as [[t g c] [ck rd cv rf lg]].
  destruct (dispatch_spec body type args t g c ck rd cv rf lg) as [c' Hc'].
  exists c'. exact Hc'.
Qed.

Lemma loop_spec (s : Runtime) :
  loop s
  = (JS.Normal tt,
     mkRuntime (mkGame (frame_now LoopFrame s) (gl (this s)) (callbacks (this s)))
       (mkHost (clock (host s)) (frame_reads LoopFrame s) (lunasCanvas (host s))
          (raf (host s) ++ [LoopFrame])
          (log (host s) ++ loop_log (frame_last LoopFrame s) (frame_now LoopFrame s)))).
Proof.
  destruct s as [[t g c] [ck rd cv rf lg]].
  unfold loop, update, draw, bind, performance_now, get_this, set_lastFrameTime, emit,
    requestAnimationFrame, loop_log.
  simpl. rewrite <- !app_assoc. reflexivity.
Qed.

Lemma loop_dispatching_touched (body : FnRef -> list Q -> list Stmt) (s : Runtime) :
  exists c1 c2,
    loop_dispatching body s
    = (JS.Normal tt,
       mkRuntime (mkGame (frame_now LoopFrame s) (gl (this s)) c2)
         (mkHost (clock (host s)) (frame_reads LoopFrame s) (lunasCanvas (host s))
            (raf (host s) ++ [LoopFrame])
            (log (host s)
               ++ frame_log body (frame_last LoopFrame s) (frame_now LoopFrame s)
                    (cb_get Kupdate (callbacks (this s))) (cb_get Kdraw c1)))).
Proof.
  destruct s as [[t g c] [ck rd cv rf lg]].
  destruct (loop_dispatching_spec body t g c ck rd cv rf lg) as (c1 & c2 & H).
  exists c1, c2. exact H.
Qed.

Lemma tick_spec (s : Runtime) (f : Frame) (pending : list Frame) :
  raf (host s) = f :: pending ->
  tick s
  = (JS.Normal tt,
     mkRuntime (mkGame (frame_now f s) (gl (this s)) (callbacks (this s)))
       (mkHost (clock (host s)) (frame_reads f s) (lunasCanvas (host s))
          (pending ++ [LoopFrame])
          (log (host s) ++ loop_log (frame_last f s) (frame_now f s)))).
Proof.
  destruct s as [[t g c] [ck rd cv rf lg]]. simpl. intros ->.
  unfold tick, schedule. simpl. destruct f; simpl.
  - unfold bind, performance_now, set_lastFrameTime. simpl.
    rewrite loop_spec. reflexivity.
  - rewrite loop_spec. reflexivity.
Qed.

Lemma tick_dispatching_spec (body : FnRef -> list Q -> list Stmt) (s : Runtime)
    (f : Frame) (pending : list Frame) :
  raf (host s) = f :: pending ->
  exists c1 c2,
    tick_dispatching body s
    = (JS.Normal tt,
       mkRuntime (mkGame (frame_now f s) (gl (this s)) c2)
         (mkHost (clock (host s)) (frame_reads f s) (lunasCanvas (host s))
            (pending ++ [LoopFrame])
            (log (host s)
               ++ frame_log body (frame_last f s) (frame_now f s)
                    (cb_get Kupdate (callbacks (this s))) (cb_get Kdraw c1)))).
Proof.
  destruct s as [[t g c] [ck rd cv rf lg]]. simpl. intros ->.
  unfold tick_dispatching, schedule. simpl. destruct f; simpl.
  - destruct (loop_dispatching_spec body (ck rd) g c ck (S rd) cv pending lg)
      as (c1 & c2 & H).
    exists c1, c2. unfold bind, performance_now, set_lastFrameTime. simpl. exact H.
  - destruct (loop_dispatching_spec body t g c ck rd cv pending lg) as (c1 & c2 & H).
    exists c1, c2. exact H.
Qed.

Lemma tick_frame_step : frame_step tick.
Proof.
  intros s f pending Hraf. rewrite (tick_spec s f pending Hraf).
  eexists. eexists. split; [reflexivity | reflexivity].
Qed.

Lemma tick_dispatching_frame_step (body : FnRef -> list Q -> list Stmt) :
  frame_step (tick_dispatching body).
Proof.
  intros s f pending Hraf.
  destruct (tick_dispatching_spec body s f pending Hraf) as (c1 & c2 & Htick).
  rewrite Htick. eexists. eexists. split; [reflexivity|].
  unfold frame_log. rewrite !deltas_app, !deltas_dispatch_log. reflexivity.
Qed.

Section Runs.

Variable step : Runtime -> JS.completion unit * Runtime.
Hypothesis step_frame : frame_step step.

Lemma step_normal (s : Runtime) (f : Frame) (pending : list Frame) :
  raf (host s) = f :: pending -> fst (step s) = JS.Normal tt.
Proof using step_frame.
  intros Hraf. destruct (step_frame s f pending Hraf) as (c & evs & Hstep & _).
  rewrite Hstep. reflexivity.
Qed.

Lemma step_raf (s : Runtime) (f : Frame) (pending : list Frame) :
  raf (host s) = f :: pending ->
  raf (host (snd (step s))) = pending ++ [LoopFrame].
Proof using step_frame.
  intros Hraf. destruct (step_frame s f pending Hraf) as (c & evs & Hstep & _).
  rewrite Hstep. reflexivity.
Qed.

Lemma run_pending (s : Runtime) (n : nat) :
  raf (host s) <> [] -> raf (host (run step n s)) <> [].
Proof using step_frame.
  intros Hs. induction n as [|n IH]; [exact Hs|].
  simpl. destruct (raf (host (run step n s))) as [|f pending] eqn:Hraf;
    [contradiction|].
  rewrite (step_raf _ f pending Hraf).
  destruct pending; discriminate.
Qed.

Lemma run_one_frame (s : Runtime) (f : Frame) (n : nat) :
  raf (host s) = [f] -> raf (host (run step (S n) s)) = [LoopFrame].
Proof using step_frame.
  intros Hone. induction n as [|n IH].
  - change (run step 1 s) with (snd (step s)).
    rewrite (step_raf s f [] Hone). reflexivity.
  - change (run step (S (S n)) s) with (snd (step (run step (S n) s))).
    rewrite (step_raf _ LoopFrame [] IH). reflexivity.
Qed.

Lemma run_from_first_frame (s : Runtime) (n : nat) :
  raf (host s) = [FirstFrame] ->
  raf (host (run step (S n) s)) = [LoopFrame] /\
  clock (host (run step (S n) s)) = clock (host s) /\
  clock_reads (host (run step (S n) s)) = (S (S n) + clock_reads (host s))%nat /\
  lunasCanvas (host (run step (S n) s)) = lunasCanvas (host s) /\
  lastFrameTime (this (run step (S n) s))
  = clock (host s) (S n + clock_reads (host s))%nat /\
  gl (this (run step (S n) s)) = gl (this s) /\
  deltas (log (host (run step (S n) s)))
  = deltas (log (host (run step n s)))
    ++ [((clock (host s) (S n + clock_reads (host s))%nat
          - clock (host s) (n + clock_reads (host s))%nat) / 1000)%Q].
Proof using step_frame.
  intros Hfirst. induction n as [|n IH].
  - destruct (step_frame s FirstFrame [] Hfirst) as (c & evs & Hstep & Hevs).
    change (run step 1 s) with (snd (step s)).
    change (run step 0 s) with s.
    rewrite Hstep. cbn [snd this host raf clock clock_reads lunasCanvas lastFrameTime
                         gl log frame_now frame_last frame_reads app] in *.
    rewrite deltas_app, Hevs. repeat split; reflexivity.
  - destruct IH as (Hraf & Hck & Hrd & Hcv & Hlast & Hgl & _).
    change (run step (S (S n)) s) with (snd (step (run step (S n) s))).
    destruct (step_frame (run step (S n) s) LoopFrame [] Hraf)
      as (c & evs & Hstep & Hevs).
    rewrite Hstep. cbn [snd this host raf clock clock_reads lunasCanvas lastFrameTime
                         gl log frame_now frame_last frame_reads app] in *.
    rewrite deltas_app, Hevs, Hck, Hrd, Hcv, Hlast, Hgl.
    repeat split; reflexivity.
Qed.

Lemma run_length_deltas (s : Runtime) (n : nat) :
  raf (host s) = [FirstFrame] ->
  length (deltas (log (host (run step n s)))) = (length (deltas (log (host s))) + n)%nat.
Proof using step_frame.
  intros Hfirst. induction n as [|n IH].
  - simpl. lia.
  - destruct (run_from_first_frame s n Hfirst) as (_ & _ & _ & _ & _ & _ & Hd).
    rewrite Hd, length_app, IH. simpl. lia.
Qed.

Lemma run_reads (s : Runtime) (n : nat) :
  raf (host s) = [FirstFrame] ->
  clock_reads (host (run step (S n) s)) = (clock_reads (host s) + n + 2)%nat /\
  lastFrameTime (this (run step (S n) s))
  = clock (host s) (clock_reads (host s) + n + 1)%nat /\
  length (deltas (log (host (run step (S n) s))))
  = (length (deltas (log (host s))) + S n)%nat /\
  gl (this (run step (S n) s)) = gl (this s) /\
  clock (host (run step (S n) s)) = clock (host s) /\
  lunasCanvas (host (run step (S n) s)) = lunasCanvas (host s).
Proof using step_frame.
  intros Hfirst.
  destruct (run_from_first_frame s n Hfirst) as (_ & Hck & Hrd & Hcv & Hlast & Hgl & _).
  repeat split.
  - rewrite Hrd. lia.
  - rewrite Hlast. f_equal. lia.
  - apply run_length_deltas. exact Hfirst.
  - exact Hgl.
  - exact Hck.
  - exact Hcv.
Qed.

Lemma run_monotone (s : Runtime) (n : nat) :
  raf (host s) = [FirstFrame] ->
  (forall i, (clock (host s) i <= clock (host s) (S i))%Q) ->
  Forall (fun dt => (0 <= dt)%Q) (deltas (log (host s))) ->
  Forall (fun dt => (0 <= dt)%Q) (deltas (log (host (run step n s)))).
Proof using step_frame.
  intros Hfirst Hmono Hstart. induction n as [|n IH]; [exact Hstart|].
  destruct (run_from_first_frame s n Hfirst) as (_ & _ & _ & _ & _ & _ & Hd).
  rewrite Hd. apply Forall_app. split; [exact IH|].
  constructor; [|constructor].
  unfold Qdiv. change (/ 1000)%Q with (1 # 1000)%Q.
  pose proof (Hmono (n + clock_reads (host s))%nat) as Hle. simpl in *. lra.
Qed.

End Runs.
Lemma new_Game_ok (h : Host) (g : Game) (h' : Host) :
  new_Game h = (JS.Normal g, h') ->
  lastFrameTime g = 0%Q /\ callbacks g = no_callbacks /\
  clock h' = clock h /\ clock_reads h' = clock_reads h /\
  lunasCanvas h' = lunasCanvas h /\ log h' = log h /\
  raf h' = raf h ++ [FirstFrame].
Proof.
  unfold new_Game. destruct (lunasCanvas h) as [canvas|] eqn:Hc; [|discriminate].
  destruct (getGLContext canvas) as [ctx|e]; [|discriminate].
  intros H. injection H as <- <-. simpl. repeat split; congruence.
Qed.

Lemma Qdelta_nonneg (t now : Q) : (0 <= (now - t) / 1000 <-> t <= now)%Q.
Proof.
  unfold Qdiv. change (/ 1000)%Q with (1 # 1000)%Q. split; intros H; lra.
Qed.

Lemma Qdelta_neg (t now : Q) : ((now - t) / 1000 < 0 <-> now < t)%Q.
Proof.
  unfold Qdiv. change (/ 1000)%Q with (1 # 1000)%Q. split; intros H; lra.
Qed.

Lemma Qdelta_zero (t now : Q) : ((now - t) / 1000 == 0 <-> t == now)%Q.
Proof.
  unfold Qdiv. change (/ 1000)%Q with (1 # 1000)%Q. split; intros H; lra.
Qed.

Lemma dispatch_outcome (body : FnRef -> list Q -> list Stmt)
    (type : GameCallbackKey) (args : list Q) (s : Runtime) :
  fst (dispatch body type args s) = JS.Normal tt /\
  log (host (snd (dispatch body type args s)))
  = log (host s) ++ dispatch_log body type args (cb_get type (callbacks (this s))).
Proof.
  destruct (dispatch_touched body type args s) as [c' Hc'].
  rewrite Hc'. split; reflexivity.
Qed.

Lemma count_occ_remove_add (type : GameCallbackKey) (callback : FnRef) (c : Callbacks) :
  count_occ Nat.eq_dec
    (cb_get type (removeCallback type callback (addCallback type callback c))) callback
  = count_occ Nat.eq_dec (cb_get type c) callback.
Proof.
  destruct (in_dec Nat.eq_dec callback (cb_get type c)) as [Hin|Hn].
  - destruct (first_occurrence _ _ Hin) as (before & after & Heq & Hb).
    rewrite (removeCallback_first type callback _ before (after ++ [callback])).
    + rewrite cb_get_set, Heq, app_assoc, count_occ_snoc, count_occ_remove_first.
      reflexivity.
    + rewrite cb_get_addCallback, Heq, <- app_assoc. reflexivity.
    + exact Hb.
  - rewrite (removeCallback_first type callback _ (cb_get type c) []).
    + rewrite cb_get_set, app_nil_r. reflexivity.
    + apply cb_get_addCallback.
    + exact Hn.
Qed.

(** ** The callback registry *)

(** C7: [removeCallback type callback] either finds no occurrence of
    [callback] in the sequence for [type], and then leaves the whole table
    as it was (no error: the function is total), or it removes the first
    occurrence, found by identity, and nothing else: one occurrence less in
    that sequence, every other sequence untouched. *)
Theorem removeCallback_removes_first_occurrence
    (type : GameCallbackKey) (callback : FnRef) (c : Callbacks) :
  (~ In callback (cb_get type c) /\ removeCallback type callback c = c)
  \/
  (exists before after,
      cb_get type c = before ++ callback :: after /\
      ~ In callback before /\
      removeCallback type callback c = cb_set type (before ++ after) c /\
      cb_get type (removeCallback type callback c) = before ++ after /\
      count_occ Nat.eq_dec (cb_get type c) callback
      = S (count_occ Nat.eq_dec (cb_get type (removeCallback type callback c)) callback) /\
      length (cb_get type c) = S (length (cb_get type (removeCallback type callback c))) /\
      forall type', type' <> type ->
        cb_get type' (removeCallback type callback c) = cb_get type' c).
Proof.
  destruct (in_dec Nat.eq_dec callback (cb_get type c)) as [Hin|Hn].
  - right. destruct (first_occurrence _ _ Hin) as (before & after & Heq & Hb).
    exists before, after.
    rewrite (removeCallback_first type callback c before after Heq Hb).
    rewrite cb_get_set, Heq.
    repeat split; try assumption; try reflexivity.
    + apply count_occ_remove_first.
    + rewrite !length_app. simpl. lia.
    + intros type' Hne. apply cb_get_set_other. exact Hne.
  - left. split; [exact Hn | apply removeCallback_absent; exact Hn].
Qed.

(** C2, as stated, fails: when the sequence already held [callback], adding
    it and removing it once leaves an occurrence, and the next dispatch
    invokes it. *)
Lemma remove_after_add_still_invoked :
  let c := removeCallback Kupdate 7
             (addCallback Kupdate 7 (mkCallbacks [7] [] [] [] [])) in
  cb_get Kupdate c = [7] /\
  invoked Kupdate
    (log (host (snd (dispatch quiet Kupdate [(16 # 1000)%Q] (game_with c))))) = [7].
Proof. split; reflexivity. Qed.

(** C2, amended: after [addCallback type callback] and then
    [removeCallback type callback], the next dispatch of [type] invokes
    [callback] once for each occurrence the sequence held before the add;
    so it is not invoked exactly when it was not registered before. *)
Theorem remove_after_add_restores_count
    (body : FnRef -> list Q -> list Stmt) (type : GameCallbackKey) (callback : FnRef)
    (args : list Q) (s : Runtime) (c : Callbacks) :
  let c' := removeCallback type callback (addCallback type callback c) in
  let s' := mkRuntime (mkGame (lastFrameTime (this s)) (gl (this s)) c') (host s) in
  exists seg,
    log (host (snd (dispatch body type args s'))) = log (host s) ++ seg /\
    invoked type seg = cb_get type c' /\
    count_occ Nat.eq_dec (invoked type seg) callback
    = count_occ Nat.eq_dec (cb_get type c) callback /\
    (In callback (invoked type seg) <-> In callback (cb_get type c)).
Proof.
  intros c' s'.
  exists (dispatch_log body type args (cb_get type c')).
  destruct (dispatch_outcome body type args s') as [_ Hlog].
  rewrite invoked_dispatch_log.
  repeat split.
  - exact Hlog.
  - apply count_occ_remove_add.
  - intros Hin. apply (count_occ_In Nat.eq_dec) in Hin.
    apply (count_occ_In Nat.eq_dec). unfold c' in Hin.
    rewrite count_occ_remove_add in Hin. exact Hin.
  - intros Hin. apply (count_occ_In Nat.eq_dec) in Hin.
    apply (count_occ_In Nat.eq_dec). unfold c'.
    rewrite count_occ_remove_add. exact Hin.
Qed.

(** C9: adding the same callback twice appends it twice, and the next
    dispatch of that kind invokes the subscribers that were there, then the
    callback twice, in the order of the two adds: two invocations more than
    the sequence held before, exactly two on a sequence that did not hold
    it, as the empty one of a new game. *)
Theorem addCallback_twice_invoked_twice
    (body : FnRef -> list Q -> list Stmt) (type : GameCallbackKey) (callback : FnRef)
    (args : list Q) (s : Runtime) (c : Callbacks) :
  let c2 := addCallback type callback (addCallback type callback c) in
  let s2 := mkRuntime (mkGame (lastFrameTime (this s)) (gl (this s)) c2) (host s) in
  cb_get type c2 = cb_get type c ++ [callback; callback] /\
  cb_get type no_callbacks = [] /\
  exists seg,
    log (host (snd (dispatch body type args s2))) = log (host s) ++ seg /\
    invoked type seg = cb_get type c ++ [callback; callback] /\
    count_occ Nat.eq_dec (invoked type seg) callback
    = S (S (count_occ Nat.eq_dec (cb_get type c) callback)).
Proof.
  intros c2 s2.
  assert (Hc2 : cb_get type c2 = cb_get type c ++ [callback; callback]).
  { unfold c2. rewrite !cb_get_addCallback, <- app_assoc. reflexivity. }
  split; [exact Hc2|]. split; [destruct type; reflexivity|].
  exists (dispatch_log body type args (cb_get type c2)).
  destruct (dispatch_outcome body type args s2) as [_ Hlog].
  rewrite invoked_dispatch_log, Hc2.
  repeat split.
  - rewrite <- Hc2. exact Hlog.
  - change [callback; callback] with ([callback] ++ [callback]).
    rewrite app_assoc, !count_occ_snoc. reflexivity.
Qed.

Lemma invoked_draw_update_log (body : FnRef -> list Q -> list Stmt)
    (args : list Q) (snapshot : list FnRef) :
  invoked Kdraw (dispatch_log body Kupdate args snapshot) = [].
Proof.
  induction snapshot as [|f rest IH]; [reflexivity|].
  unfold dispatch_log in *. simpl. destruct (throws (body f args)); exact IH.
Qed.

Lemma invoked_update_draw_log (body : FnRef -> list Q -> list Stmt)
    (args : list Q) (snapshot : list FnRef) :
  invoked Kupdate (dispatch_log body Kdraw args snapshot) = [].
Proof.
  induction snapshot as [|f rest IH]; [reflexivity|].
  unfold dispatch_log in *. simpl. destruct (throws (body f args)); exact IH.
Qed.

Lemma loop_outcome (s : Runtime) :
  fst (loop s) = JS.Normal tt /\
  raf (host (snd (loop s))) = raf (host s) ++ [LoopFrame].
Proof. rewrite loop_spec. split; reflexivity. Qed.

Lemma loop_dispatching_outcome (body : FnRef -> list Q -> list Stmt) (s : Runtime) :
  fst (loop_dispatching body s) = JS.Normal tt /\
  raf (host (snd (loop_dispatching body s))) = raf (host s) ++ [LoopFrame].
Proof.
  destruct (loop_dispatching_touched body s) as (c1 & c2 & H). rewrite H. split; reflexivity.
Qed.

(** ** The frame clock *)

Example loop_of_the_source_calls_no_subscriber :
  invoked Kupdate
    (log (host (ticks 2 (running_game advancing_clock (mkCallbacks [1] [2] [] [] [])))))
  = [] /\
  invoked Kupdate
    (log (host (ticks_dispatching quiet 2
                  (running_game advancing_clock (mkCallbacks [1] [2] [] [] [])))))
  = [1; 1].
Proof. split; reflexivity. Qed.

(** C1, as stated, fails: the clock answers 2000 ms, 2000 ms and then
    1000 ms; the second tick hands the delta (1000 - 2000) / 1000 to
    [update], a negative number. *)
Lemma negative_delta_reaches_update :
  start_on (ready_host regressing_clock) (fun c => c)
  = Some (running_game regressing_clock no_callbacks) /\
  exists dt0 dt,
    deltas (log (host (ticks 2 (running_game regressing_clock no_callbacks))))
    = [dt0; dt] /\
    (dt < 0)%Q /\
    In (CallUpdate dt) (log (host (ticks 2 (running_game regressing_clock no_callbacks)))).
Proof.
  split; [reflexivity|].
  exists ((2000 - 2000) / 1000)%Q, ((1000 - 2000) / 1000)%Q.
  split; [reflexivity|]. split; [reflexivity|].
  simpl. right. right. right. right. left. reflexivity.
Qed.

(** C1, amended: a pass of [loop] hands to [update] the delta
    (now - lastFrameTime) / 1000 as it is, then draws, and records [now] as
    the last frame time. The delta is at least 0 exactly when the new
    sample does not precede the last one; there is no clamp, so on a clock
    regression it is negative. *)
Theorem loop_delta_is_unclamped_difference (s : Runtime) :
  let now := clock (host s) (clock_reads (host s)) in
  let dt := ((now - lastFrameTime (this s)) / 1000)%Q in
  let s' := snd (loop s) in
  log (host s')
  = log (host s) ++ [CallUpdate dt; CallDraw; GlClearColor 0 0 0 1; GlClear COLOR_BUFFER_BIT] /\
  deltas (log (host s')) = deltas (log (host s)) ++ [dt] /\
  lastFrameTime (this s') = now /\
  (0 <= dt <-> lastFrameTime (this s) <= now)%Q /\
  (dt < 0 <-> now < lastFrameTime (this s))%Q.
Proof.
  intros now dt s'. unfold s'. rewrite loop_spec. simpl.
  split; [reflexivity|]. split; [rewrite deltas_app; reflexivity|].
  split; [reflexivity|]. split; [apply Qdelta_nonneg | apply Qdelta_neg].
Qed.

(** C8, as stated, fails: the first frame reads the clock once to set the
    last frame time and [loop] reads it again; when the clock advanced in
    between (here by a tenth of a millisecond) the first delta is not 0. *)
Lemma first_delta_not_zero :
  start_on (ready_host advancing_clock) (fun c => c)
  = Some (running_game advancing_clock no_callbacks) /\
  exists dt,
    deltas (log (host (ticks 1 (running_game advancing_clock no_callbacks)))) = [dt] /\
    deltas (log (host (ticks_dispatching quiet 1
                         (running_game advancing_clock no_callbacks)))) = [dt] /\
    ~ (dt == 0)%Q.
Proof.
  split; [reflexivity|].
  exists ((advancing_clock 1 - advancing_clock 0) / 1000)%Q.
  split; [reflexivity|]. split; [reflexivity|].
  intros H. vm_compute in H. discriminate H.
Qed.

(** C8, amended: the constructor leaves the last frame time at 0 and does
    not read the clock; the first scheduler tick sets it to the time [t1] it
    reads, and [loop], which reads the clock again and gets [t2], hands
    (t2 - t1) / 1000 to [update]: zero exactly when both readings agree, and
    never negative when the clock did not go back. The same holds of the
    loop that dispatches to subscribers. *)
Theorem first_delta_is_second_reading_minus_first
    (body : FnRef -> list Q -> list Stmt) (h : Host) (g : Game) (h' : Host) :
  new_Game h = (JS.Normal g, h') ->
  raf h = [] ->
  let t1 := clock h (clock_reads h) in
  let t2 := clock h (S (clock_reads h)) in
  let s1 := snd (tick (mkRuntime g h')) in
  let s1' := snd (tick_dispatching body (mkRuntime g h')) in
  lastFrameTime g = 0%Q /\
  clock_reads h' = clock_reads h /\
  deltas (log (host s1)) = deltas (log h) ++ [((t2 - t1) / 1000)%Q] /\
  lastFrameTime (this s1) = t2 /\
  deltas (log (host s1')) = deltas (log h) ++ [((t2 - t1) / 1000)%Q] /\
  lastFrameTime (this s1') = t2 /\
  ((t2 - t1) / 1000 == 0 <-> t1 == t2)%Q /\
  (t1 <= t2 -> 0 <= (t2 - t1) / 1000)%Q.
Proof.
  intros Hnew Hraf t1 t2 s1 s1'.
  destruct (new_Game_ok h g h' Hnew) as (Ht & Hcb & Hck & Hrd & Hcv & Hlg & Hrf).
  rewrite Hraf in Hrf. simpl in Hrf.
  destruct (tick_dispatching_spec body (mkRuntime g h') FirstFrame [] Hrf)
    as (c1 & c2 & Htick).
  unfold s1, s1'. rewrite Htick, (tick_spec (mkRuntime g h') FirstFrame [] Hrf).
  simpl. rewrite Hck, Hrd, Hlg.
  split; [exact Ht|]. split; [reflexivity|].
  split; [rewrite deltas_app; reflexivity|]. split; [reflexivity|].
  split; [rewrite deltas_app, deltas_frame_log; reflexivity|]. split; [reflexivity|].
  split; [apply Qdelta_zero | apply Qdelta_nonneg].
Qed.

Lemma first_delta_is_second_reading_minus_first_witness :
  deltas (log (host (snd (tick (running_game advancing_clock no_callbacks)))))
  = [((advancing_clock 1 - advancing_clock 0) / 1000)%Q] /\
  deltas (log (host (snd (tick_dispatching quiet
                            (running_game advancing_clock no_callbacks)))))
  = [((advancing_clock 1 - advancing_clock 0) / 1000)%Q].
Proof.
  pose proof (first_delta_is_second_reading_minus_first quiet
                (ready_host advancing_clock)
                (mkGame 0 WebGL2 no_callbacks)
                (host (running_game advancing_clock no_callbacks))
                eq_refl eq_refl) as (_ & _ & Hown & _ & Hdispatching & _).
  split; [exact Hown | exact Hdispatching].
Defined.

(** ** The loop *)

(** C3: in every tick of a running loop, whatever the number of ticks
    before it, the call of [update] is complete before [draw] begins: the
    log grows by the call of [update], then the call of [draw] and the
    clearing of the screen. In the loop that dispatches to subscribers it
    grows by the update part followed by the draw part: the call of
    [update] and one invocation of each update subscriber registered when
    the tick began, in insertion order, and only then the call of [draw],
    the clearing of the screen and the draw subscribers. *)
Theorem update_dispatch_completes_before_draw
    (body : FnRef -> list Q -> list Stmt) (s : Runtime) (i : nat) :
  raf (host s) <> [] ->
  (exists dt,
      log (host (ticks (S i) s))
      = log (host (ticks i s))
        ++ [CallUpdate dt] ++ [CallDraw; GlClearColor 0 0 0 1; GlClear COLOR_BUFFER_BIT]) /\
  exists dt ds,
    let us := cb_get Kupdate (callbacks (this (ticks_dispatching body i s))) in
    let update_part := CallUpdate dt :: dispatch_log body Kupdate [dt] us in
    let draw_part :=
      [CallDraw; GlClearColor 0 0 0 1; GlClear COLOR_BUFFER_BIT]
      ++ dispatch_log body Kdraw [] ds in
    log (host (ticks_dispatching body (S i) s))
    = log (host (ticks_dispatching body i s)) ++ update_part ++ draw_part /\
    invoked Kupdate update_part = us /\
    invoked Kdraw update_part = [] /\
    invoked Kdraw draw_part = ds /\
    invoked Kupdate draw_part = [] /\
    forallb update_phase update_part = true /\
    forallb draw_phase draw_part = true.
Proof.
  intros Hrun. split.
  - pose proof (run_pending tick tick_frame_step s i Hrun) as Hpending.
    fold (ticks i s) in Hpending.
    destruct (raf (host (ticks i s))) as [|f pending] eqn:Hraf; [contradiction|].
    exists ((frame_now f (ticks i s) - frame_last f (ticks i s)) / 1000)%Q.
    change (ticks (S i) s) with (snd (tick (ticks i s))).
    rewrite (tick_spec (ticks i s) f pending Hraf). reflexivity.
  - pose proof (run_pending _ (tick_dispatching_frame_step body) s i Hrun) as Hpending.
    fold (ticks_dispatching body i s) in Hpending.
    destruct (raf (host (ticks_dispatching body i s))) as [|f pending] eqn:Hraf;
      [contradiction|].
    destruct (tick_dispatching_spec body (ticks_dispatching body i s) f pending Hraf)
      as (c1 & c2 & Htick).
    exists ((frame_now f (ticks_dispatching body i s)
             - frame_last f (ticks_dispatching body i s)) / 1000)%Q,
           (cb_get Kdraw c1).
    cbv zeta.
    change (ticks_dispatching body (S i) s)
      with (snd (tick_dispatching body (ticks_dispatching body i s))).
    rewrite Htick. simpl.
    repeat split.
    + apply invoked_dispatch_log.
    + apply invoked_draw_update_log.
    + apply invoked_dispatch_log.
    + apply invoked_update_draw_log.
    + apply update_phase_dispatch_log.
    + apply draw_phase_dispatch_log.
Qed.

Lemma update_dispatch_completes_before_draw_witness :
  (exists dt,
      log (host (ticks 2 (running_game advancing_clock (mkCallbacks [1] [2] [] [] []))))
      = log (host (ticks 1 (running_game advancing_clock (mkCallbacks [1] [2] [] [] []))))
        ++ [CallUpdate dt] ++ [CallDraw; GlClearColor 0 0 0 1; GlClear COLOR_BUFFER_BIT]) /\
  exists dt ds,
    log (host (ticks_dispatching quiet 2
                 (running_game advancing_clock (mkCallbacks [1] [2] [] [] []))))
    = log (host (ticks_dispatching quiet 1
                   (running_game advancing_clock (mkCallbacks [1] [2] [] [] []))))
      ++ (CallUpdate dt :: dispatch_log quiet Kupdate [dt] [1])
      ++ ([CallDraw; GlClearColor 0 0 0 1; GlClear COLOR_BUFFER_BIT]
          ++ dispatch_log quiet Kdraw [] ds).
Proof.
  destruct (update_dispatch_completes_before_draw quiet
              (running_game advancing_clock (mkCallbacks [1] [2] [] [] [])) 1)
    as (Hown & dt & ds & H & _).
  - simpl. discriminate.
  - split; [exact Hown|]. exists dt, ds. exact H.
Defined.

(** C4, as stated, fails: the class has no [stop]; no run of a constructed
    game ever reaches a state in which the scheduler holds no frame of the
    loop, and neither does a run of the loop that dispatches, whatever its
    subscribers register, unregister or throw. *)
Lemma no_run_is_ever_stopped :
  (~ exists (h : Host) (register : Callbacks -> Callbacks) (s : Runtime) (n : nat),
       start_on h register = Some s /\ stopped (ticks n s)) /\
  ~ exists (body : FnRef -> list Q -> list Stmt) (h : Host)
           (register : Callbacks -> Callbacks) (s : Runtime) (n : nat),
      start_on h register = Some s /\ stopped (ticks_dispatching body n s).
Proof.
  assert (Hstarted : forall h register s,
             start_on h register = Some s -> raf (host s) <> []).
  { intros h register s Hstart. unfold start_on in Hstart.
    destruct (new_Game h) as [[g|e] h'] eqn:Hnew; [|discriminate].
    injection Hstart as <-.
    destruct (new_Game_ok h g h' Hnew) as (_ & _ & _ & _ & _ & _ & Hrf).
    simpl. rewrite Hrf. destruct (raf h); discriminate. }
  split.
  - intros (h & register & s & n & Hstart & Hstopped).
    exact (run_pending tick tick_frame_step s n (Hstarted _ _ _ Hstart) Hstopped).
  - intros (body & h & register & s & n & Hstart & Hstopped).
    exact (run_pending _ (tick_dispatching_frame_step body) s n
             (Hstarted _ _ _ Hstart) Hstopped).
Qed.

(** C4, amended: nothing deregisters the loop. A tick of a running loop
    completes its call of [update] and of [draw] normally and then requests
    the next frame, so after any number of ticks another tick is pending;
    and so does a tick of the loop that dispatches to subscribers, after its
    update and draw dispatch. *)
Theorem loop_always_requests_next_frame
    (body : FnRef -> list Q -> list Stmt) (s : Runtime)
    (f : Frame) (pending : list Frame) (n : nat) :
  raf (host s) = f :: pending ->
  (fst (tick s) = JS.Normal tt /\
   raf (host (snd (tick s))) = pending ++ [LoopFrame] /\
   log (host (snd (tick s)))
   = log (host s) ++ loop_log (frame_last f s) (frame_now f s) /\
   ~ stopped (ticks n s)) /\
  fst (tick_dispatching body s) = JS.Normal tt /\
  raf (host (snd (tick_dispatching body s))) = pending ++ [LoopFrame] /\
  (exists us ds,
      log (host (snd (tick_dispatching body s)))
      = log (host s) ++ frame_log body (frame_last f s) (frame_now f s) us ds) /\
  ~ stopped (ticks_dispatching body n s).
Proof.
  intros Hraf.
  assert (Hrun : raf (host s) <> []) by (rewrite Hraf; discriminate).
  split.
  - rewrite (tick_spec s f pending Hraf). simpl. repeat split.
    exact (run_pending tick tick_frame_step s n Hrun).
  - destruct (tick_dispatching_spec body s f pending Hraf) as (c1 & c2 & Htick).
    rewrite Htick. simpl. repeat split.
    + exists (cb_get Kupdate (callbacks (this s))), (cb_get Kdraw c1). reflexivity.
    + exact (run_pending _ (tick_dispatching_frame_step body) s n Hrun).
Qed.

Lemma loop_always_requests_next_frame_witness :
  raf (host (snd (tick (running_game advancing_clock no_callbacks)))) = [LoopFrame] /\
  ~ stopped (ticks 3 (running_game advancing_clock no_callbacks)) /\
  raf (host (snd (tick_dispatching quiet (running_game advancing_clock no_callbacks))))
  = [LoopFrame] /\
  ~ stopped (ticks_dispatching quiet 3 (running_game advancing_clock no_callbacks)).
Proof.
  pose proof (loop_always_requests_next_frame quiet
                (running_game advancing_clock no_callbacks) FirstFrame [] 3 eq_refl)
    as ((_ & Hraf & _ & Hrun) & _ & Hraf' & _ & Hrun').
  repeat split; assumption.
Defined.

(** C5: with no canvas in the document the constructor, which creates and
    starts the game, throws the "not found" error to its caller; no game
    exists and the host is as before: no frame requested, no clock reading,
    nothing logged. Once the document holds a canvas that yields a WebGL
    context, constructing again succeeds and requests the first frame. *)
Theorem constructor_without_canvas_throws (h : Host) (canvas : Canvas) (ctx : GLContext) :
  lunasCanvas h = None ->
  getGLContext canvas = JS.Normal ctx ->
  new_Game h = (JS.Throw canvas_not_found, h) /\
  new_Game (set_lunasCanvas (Some canvas) (snd (new_Game h)))
  = (JS.Normal (mkGame 0 ctx no_callbacks),
     mkHost (clock h) (clock_reads h) (Some canvas) (raf h ++ [FirstFrame]) (log h)).
Proof.
  intros Hnone Hctx.
  assert (Hfail : new_Game h = (JS.Throw canvas_not_found, h)).
  { unfold new_Game. rewrite Hnone. reflexivity. }
  split; [exact Hfail|].
  rewrite Hfail. unfold new_Game. simpl. rewrite Hctx. reflexivity.
Qed.

Lemma constructor_without_canvas_throws_witness :
  new_Game still_host = (JS.Throw canvas_not_found, still_host) /\
  new_Game (set_lunasCanvas (Some (mkCanvas None (Some WebGL1))) (snd (new_Game still_host)))
  = (JS.Normal (mkGame 0 WebGL1 no_callbacks),
     mkHost (clock still_host) (clock_reads still_host)
       (Some (mkCanvas None (Some WebGL1))) (raf still_host ++ [FirstFrame])
       (log still_host)).
Proof.
  apply (constructor_without_canvas_throws still_host (mkCanvas None (Some WebGL1)) WebGL1
           eq_refl eq_refl).
Defined.

(** C6: a subscriber that throws during a dispatch pass is reported and the
    pass goes on: the dispatch returns normally, every subscriber of the
    sequence is invoked once, in order, among them all those behind the
    failing one; and a pass of the loop, of the one that dispatches as of
    the one of the source, returns normally and requests the next frame. *)
Theorem dispatch_isolates_subscriber_failure
    (body : FnRef -> list Q -> list Stmt) (type : GameCallbackKey) (args : list Q)
    (s : Runtime) (before after : list FnRef) (f : FnRef) (message : string) :
  cb_get type (callbacks (this s)) = before ++ f :: after ->
  throws (body f args) = Some message ->
  fst (dispatch body type args s) = JS.Normal tt /\
  (exists seg,
      log (host (snd (dispatch body type args s))) = log (host s) ++ seg /\
      In (Report type f (JS.mkError message)) seg /\
      invoked type seg = before ++ f :: after /\
      forall f', In f' after -> In (Invoke type f' args) seg) /\
  fst (loop_dispatching body s) = JS.Normal tt /\
  raf (host (snd (loop_dispatching body s))) = raf (host s) ++ [LoopFrame] /\
  fst (loop s) = JS.Normal tt /\
  raf (host (snd (loop s))) = raf (host s) ++ [LoopFrame].
Proof.
  intros Hcbs Hthrows.
  destruct (dispatch_outcome body type args s) as [Hnormal Hlog].
  destruct (loop_dispatching_outcome body s) as [Hloop Hraf].
  destruct (loop_outcome s) as [Hloop' Hraf'].
  split; [exact Hnormal|]. split; [|repeat split; assumption].
  exists (dispatch_log body type args (before ++ f :: after)).
  rewrite <- Hcbs. repeat split.
  - exact Hlog.
  - apply Report_in_dispatch_log; [|exact Hthrows].
    rewrite Hcbs. apply in_or_app. right. left. reflexivity.
  - apply invoked_dispatch_log.
  - intros f' Hin. apply Invoke_in_dispatch_log.
    rewrite Hcbs. apply in_or_app. right. right. exact Hin.
Qed.

Lemma dispatch_isolates_subscriber_failure_witness :
  fst (dispatch faulty_one Kdraw [] (game_with (mkCallbacks [] [1; 2] [] [] [])))
  = JS.Normal tt /\
  exists seg,
    log (host (snd (dispatch faulty_one Kdraw []
                      (game_with (mkCallbacks [] [1; 2] [] [] [])))))
    = log (host (game_with (mkCallbacks [] [1; 2] [] [] []))) ++ seg /\
    In (Report Kdraw 1 (JS.mkError "boom")) seg /\
    invoked Kdraw seg = [1; 2] /\
    forall f', In f' [2] -> In (Invoke Kdraw f' []) seg.
Proof.
  pose proof (dispatch_isolates_subscriber_failure faulty_one Kdraw []
                (game_with (mkCallbacks [] [1; 2] [] [] [])) [] [2] 1 "boom"
                eq_refl eq_refl) as (Hnormal & Hseg & _).
  split; [exact Hnormal | exact Hseg].
Defined.

(** * Further properties of the code *)

(** ** The dependency container: add, get, remove, clear *)

Lemma Service_prop_other (name name' : string) (c c' : Service.container) :
  Service.own c' !! name' = Service.own c !! name' ->
  Service.proto c' = Service.proto c ->
  Service.prop c' name' = Service.prop c name'.
Proof. intros Hown Hproto. unfold Service.prop. rewrite Hown, Hproto. reflexivity. Qed.

Lemma Service_remove_cases (name : string) (c : Service.container) :
  (JS.ToBoolean (Service.prop c name) = true /\
   Service.remove name c
   = Service.mkContainer (delete name (Service.own c)) (Service.proto c))
  \/ (JS.ToBoolean (Service.prop c name) = false /\ Service.remove name c = c).
Proof.
  unfold Service.remove. destruct (JS.ToBoolean (Service.prop c name));
    [left | right]; split; reflexivity.
Qed.


(** X1: under a name that [Object.prototype] does not define, a truthy
    service that was added is what [get] returns, whatever the container
    held under that name before; a later [add] under the same name replaces
    the earlier one, and what [get] answers for any other name is as
    before. *)
Theorem Service_add_then_get
    (name name' : string) (v old : JS.value) (c : Service.container) :
  Service.inherited_name name = false ->
  JS.ToBoolean v = true ->
  name' <> name ->
  exists c1,
    Service.add name v c = Some c1 /\
    Service.get name c1 = JS.Normal v /\
    Service.get name' c1 = Service.get name' c /\
    exists c0,
      Service.add name old c = Some c0 /\
      Service.add name v c0 = Some c1.
Proof.
  intros Hplain Htruthy Hne.
  eexists. split; [apply Service_add_plain; exact Hplain|].
  split; [|split].
  - rewrite (Service_get_stored name v) by apply lookup_insert_eq.
    rewrite Htruthy. reflexivity.
  - rewrite !Service_get_unfold.
    rewrite (Service_prop_other name name' c); [reflexivity| |reflexivity].
    simpl. apply lookup_insert_ne. congruence.
  - eexists. split; [apply Service_add_plain; exact Hplain|].
    rewrite Service_add_plain by exact Hplain. simpl.
    rewrite insert_insert_eq. reflexivity.
Qed.

Lemma Service_add_then_get_witness :
  exists c1,
    Service.add "audio" (JS.Object 3) Service.CONTAINER = Some c1 /\
    Service.get "audio" c1 = JS.Normal (JS.Object 3) /\
    Service.get "toString" c1 = Service.get "toString" Service.CONTAINER.
Proof.
  destruct (Service_add_then_get "audio" "toString" (JS.Object 3) JS.Undefined
              Service.CONTAINER eq_refl eq_refl)
    as (c1 & Hadd & Hget & Hother & _); [discriminate|].
  exists c1. split; [exact Hadd|]. split; [exact Hget | exact Hother].
Defined.



(** X3: under a name that [Object.prototype] does not define,
    [Service.remove] deletes an entry only when its value is truthy. An
    entry that was added with a falsy value stays in the container (its key
    is still an own property), while an entry with a truthy value is
    deleted. *)
Theorem Service_remove_keeps_falsy_entries
    (name : string) (v : JS.value) (c : Service.container) :
  Service.inherited_name name = false ->
  exists c1,
    Service.add name v c = Some c1 /\
    (JS.ToBoolean v = false ->
       Service.remove name c1 = c1 /\
       Service.own (Service.remove name c1) !! name = Some v) /\
    (JS.ToBoolean v = true ->
       Service.remove name c1
       = Service.mkContainer (delete name (Service.own c)) (Service.proto c) /\
       Service.own (Service.remove name c1) !! name = None).
Proof.
  intros Hplain.
  eexists. split; [apply Service_add_plain; exact Hplain|].
  assert (Hprop : Service.prop
                    (Service.mkContainer (<[name := v]> (Service.own c)) (Service.proto c))
                    name = v).
  { unfold Service.prop. simpl. rewrite lookup_insert_eq. reflexivity. }
  split; intros Hb; unfold Service.remove; rewrite Hprop, Hb; simpl.
  - split; [reflexivity | apply lookup_insert_eq].
  - rewrite delete_insert_eq. split; [reflexivity | apply lookup_delete_eq].
Qed.

Lemma Service_remove_keeps_falsy_entries_witness :
  (exists c1,
      Service.add "volume" (JS.Number (JS.Finite 0)) Service.CONTAINER = Some c1 /\
      Service.own (Service.remove "volume" c1) !! "volume"%string
      = Some (JS.Number (JS.Finite 0))) /\
  exists c1,
    Service.add "audio" (JS.Object 3) Service.CONTAINER = Some c1 /\
    Service.own (Service.remove "audio" c1) !! "audio"%string = None.
Proof.
  destruct (Service_remove_keeps_falsy_entries "volume" (JS.Number (JS.Finite 0))
              Service.CONTAINER eq_refl) as (c1 & Hadd & Hfalsy & _).
  destruct (Service_remove_keeps_falsy_entries "audio" (JS.Object 3)
              Service.CONTAINER eq_refl) as (c2 & Hadd' & _ & Htruthy).
  split.
  - exists c1. split; [exact Hadd | apply (Hfalsy eq_refl)].
  - exists c2. split; [exact Hadd' | apply (Htruthy eq_refl)].
Defined.

(** X4: [Service.remove name] leaves every other name as it was. *)
Theorem Service_remove_other
    (name name' : string) (c : Service.container) :
  name' <> name ->
  Service.own (Service.remove name c) !! name' = Service.own c !! name' /\
  Service.get name' (Service.remove name c) = Service.get name' c.
Proof.
  intros Hne.
  assert (Hlook : Service.own (Service.remove name c) !! name' = Service.own c !! name').
  { destruct (Service_remove_cases name c) as [[_ ->]|[_ ->]]; [|reflexivity].
    simpl. apply lookup_delete_ne. congruence. }
  assert (Hproto : Service.proto (Service.remove name c) = Service.proto c).
  { destruct (Service_remove_cases name c) as [[_ ->]|[_ ->]]; reflexivity. }
  split; [exact Hlook|].
  rewrite !Service_get_unfold, (Service_prop_other name name' c _ Hlook Hproto).
  reflexivity.
Qed.

Lemma Service_remove_other_witness :
  Service.get "assets"
    (Service.remove "audio"
       (Service.mkContainer
          (<[ "audio"%string := JS.Object 3 ]> {[ "assets"%string := JS.Object 4 ]})
          Service.ObjectPrototype))
  = Service.get "assets"
      (Service.mkContainer
         (<[ "audio"%string := JS.Object 3 ]> {[ "assets"%string := JS.Object 4 ]})
         Service.ObjectPrototype).
Proof.
  apply (Service_remove_other "audio" "assets"
           (Service.mkContainer
              (<[ "audio"%string := JS.Object 3 ]> {[ "assets"%string := JS.Object 4 ]})
              Service.ObjectPrototype)).
  discriminate.
Defined.




(** ** The inject decorator *)



(** ** Registering and unregistering callbacks *)

Lemma cb_set_set (type : GameCallbackKey) (arr arr' : list FnRef) (c : Callbacks) :
  cb_set type arr (cb_set type arr' c) = cb_set type arr c.
Proof. destruct type; reflexivity. Qed.

Lemma cb_set_same (type : GameCallbackKey) (c : Callbacks) :
  cb_set type (cb_get type c) c = c.
Proof. destruct type, c; reflexivity. Qed.

(** X7: registering a callback that the sequence did not hold and
    unregistering it again gives back the very table there was. *)
Theorem add_then_remove_restores_table
    (type : GameCallbackKey) (callback : FnRef) (c : Callbacks) :
  ~ In callback (cb_get type c) ->
  removeCallback type callback (addCallback type callback c) = c.
Proof.
  intros Hfresh.
  rewrite (removeCallback_first type callback _ (cb_get type c) []).
  - unfold addCallback. rewrite cb_set_set, app_nil_r. apply cb_set_same.
  - apply cb_get_addCallback.
  - exact Hfresh.
Qed.

Lemma add_then_remove_restores_table_witness :
  removeCallback Kdraw 5 (addCallback Kdraw 5 (mkCallbacks [1] [2; 3] [] [] []))
  = mkCallbacks [1] [2; 3] [] [] [].
Proof.
  apply (add_then_remove_restores_table Kdraw 5 (mkCallbacks [1] [2; 3] [] [] [])).
  simpl. lia.
Defined.

Lemma filter_others_remove_first (before after : list FnRef) (x : FnRef) :
  List.filter (fun y => negb (Nat.eqb y x)) (before ++ x :: after)
  = List.filter (fun y => negb (Nat.eqb y x)) (before ++ after).
Proof.
  rewrite !List.filter_app. simpl. rewrite Nat.eqb_refl. reflexivity.
Qed.

Lemma removeCallback_cases (type : GameCallbackKey) (callback : FnRef) (c : Callbacks) :
  (~ In callback (cb_get type c) /\ removeCallback type callback c = c)
  \/ (exists before after,
         cb_get type c = before ++ callback :: after /\ ~ In callback before /\
         cb_get type (removeCallback type callback c) = before ++ after).
Proof.
  destruct (in_dec Nat.eq_dec callback (cb_get type c)) as [Hin|Hn].
  - right. destruct (first_occurrence _ _ Hin) as (before & after & Heq & Hb).
    exists before, after.
    rewrite (removeCallback_first type callback c before after Heq Hb), cb_get_set.
    repeat split; assumption.
  - left. split; [exact Hn | apply removeCallback_absent; exact Hn].
Qed.

Lemma removeCallback_count_self (type : GameCallbackKey) (callback : FnRef)
    (c : Callbacks) :
  count_occ Nat.eq_dec (cb_get type (removeCallback type callback c)) callback
  = Nat.pred (count_occ Nat.eq_dec (cb_get type c) callback).
Proof.
  destruct (removeCallback_cases type callback c)
    as [[Hn Heq]|(before & after & Hl & Hb & Hr)].
  - rewrite Heq. apply (count_occ_not_In Nat.eq_dec) in Hn. rewrite Hn. reflexivity.
  - rewrite Hr, Hl, count_occ_remove_first. reflexivity.
Qed.

Lemma removeCallback_filter_others (type : GameCallbackKey) (callback : FnRef)
    (c : Callbacks) :
  List.filter (fun y => negb (Nat.eqb y callback))
    (cb_get type (removeCallback type callback c))
  = List.filter (fun y => negb (Nat.eqb y callback)) (cb_get type c).
Proof.
  destruct (removeCallback_cases type callback c)
    as [[Hn Heq]|(before & after & Hl & Hb & Hr)].
  - rewrite Heq. reflexivity.
  - rewrite Hr, Hl. symmetry. apply filter_others_remove_first.
Qed.

(** X8: [removeCallback] never unregisters another function: in the
    sequence of its kind the other callbacks keep their number and their
    order, and a call lowers the number of occurrences of the callback
    itself by one, unless there was none. *)
Theorem removeCallback_spares_other_callbacks
    (type : GameCallbackKey) (callback : FnRef) (c : Callbacks) :
  List.filter (fun y => negb (Nat.eqb y callback))
    (cb_get type (removeCallback type callback c))
  = List.filter (fun y => negb (Nat.eqb y callback)) (cb_get type c) /\
  (forall other, other <> callback ->
     count_occ Nat.eq_dec (cb_get type (removeCallback type callback c)) other
     = count_occ Nat.eq_dec (cb_get type c) other) /\
  count_occ Nat.eq_dec (cb_get type (removeCallback type callback c)) callback
  = Nat.pred (count_occ Nat.eq_dec (cb_get type c) callback).
Proof.
  split; [apply removeCallback_filter_others|].
  split; [|apply removeCallback_count_self].
  intros other Hne.
  destruct (removeCallback_cases type callback c)
    as [[Hn Heq]|(before & after & Hl & Hb & Hr)].
  - rewrite Heq. reflexivity.
  - rewrite Hr, Hl, !count_occ_app. simpl.
    destruct (Nat.eq_dec callback other) as [Heq|_]; [congruence | reflexivity].
Qed.

Lemma count_occ_iter_remove (type : GameCallbackKey) (callback : FnRef) (c : Callbacks)
    (n : nat) :
  count_occ Nat.eq_dec
    (cb_get type (Nat.iter n (removeCallback type callback) c)) callback
  = (count_occ Nat.eq_dec (cb_get type c) callback - n)%nat.
Proof.
  induction n as [|n IH]; simpl Nat.iter.
  - lia.
  - rewrite removeCallback_count_self, IH. lia.
Qed.

Lemma filter_iter_remove (type : GameCallbackKey) (callback : FnRef) (c : Callbacks)
    (n : nat) :
  List.filter (fun y => negb (Nat.eqb y callback))
    (cb_get type (Nat.iter n (removeCallback type callback) c))
  = List.filter (fun y => negb (Nat.eqb y callback)) (cb_get type c).
Proof.
  induction n as [|n IH]; simpl Nat.iter; [reflexivity|].
  rewrite removeCallback_filter_others. exact IH.
Qed.

(** X9: a callback that was registered k times is still registered after
    fewer than k calls of [removeCallback] and is gone after k calls (or
    more); the other callbacks of the sequence are the same, in the same
    order, all along. *)
Theorem callback_gone_after_as_many_removes
    (type : GameCallbackKey) (callback : FnRef) (c : Callbacks) (n : nat) :
  let c' := Nat.iter n (removeCallback type callback) c in
  count_occ Nat.eq_dec (cb_get type c') callback
  = (count_occ Nat.eq_dec (cb_get type c) callback - n)%nat /\
  (In callback (cb_get type c')
   <-> (n < count_occ Nat.eq_dec (cb_get type c) callback)%nat) /\
  List.filter (fun y => negb (Nat.eqb y callback)) (cb_get type c')
  = List.filter (fun y => negb (Nat.eqb y callback)) (cb_get type c).
Proof.
  intros c'. pose proof (count_occ_iter_remove type callback c n) as Hcount.
  fold c' in Hcount.
  split; [exact Hcount|]. split; [|apply filter_iter_remove].
  rewrite (count_occ_In Nat.eq_dec), Hcount. lia.
Qed.

Lemma removeCallback_other_kind (type type' : GameCallbackKey) (callback : FnRef)
    (c : Callbacks) :
  type' <> type -> cb_get type' (removeCallback type callback c) = cb_get type' c.
Proof.
  intros Hne. unfold removeCallback.
  destruct (negb _); [apply cb_get_set_other; exact Hne | reflexivity].
Qed.

Lemma cb_set_commute (t1 t2 : GameCallbackKey) (a1 a2 : list FnRef) (c : Callbacks) :
  t1 <> t2 -> cb_set t1 a1 (cb_set t2 a2 c) = cb_set t2 a2 (cb_set t1 a1 c).
Proof. destruct t1, t2; intros H; try reflexivity; contradiction. Qed.

(** X10: the sequences of different kinds are independent: registering or
    unregistering under one kind leaves the sequence of every other kind as
    it was, and a registration under one kind commutes with an
    unregistration under another. *)
Theorem callbacks_of_other_kinds_untouched
    (t1 t2 : GameCallbackKey) (a b : FnRef) (c : Callbacks) :
  t1 <> t2 ->
  cb_get t2 (addCallback t1 a c) = cb_get t2 c /\
  cb_get t2 (removeCallback t1 a c) = cb_get t2 c /\
  addCallback t1 a (removeCallback t2 b c) = removeCallback t2 b (addCallback t1 a c).
Proof.
  intros Hne.
  assert (Hadd : cb_get t2 (addCallback t1 a c) = cb_get t2 c).
  { unfold addCallback. apply cb_get_set_other. congruence. }
  split; [exact Hadd|].
  split; [apply removeCallback_other_kind; congruence|].
  unfold removeCallback. rewrite Hadd.
  destruct (negb _); [|reflexivity].
  unfold addCallback. rewrite cb_get_set_other by exact Hne.
  apply cb_set_commute. exact Hne.
Qed.

Lemma callbacks_of_other_kinds_untouched_witness :
  addCallback Kupdate 1 (removeCallback Kdraw 2 (mkCallbacks [] [2; 3] [] [] []))
  = removeCallback Kdraw 2 (addCallback Kupdate 1 (mkCallbacks [] [2; 3] [] [] [])).
Proof.
  apply (callbacks_of_other_kinds_untouched Kupdate Kdraw 1 2
           (mkCallbacks [] [2; 3] [] [] [])).
  discriminate.
Defined.

(** X11: [indexOf] answers -1 exactly when the array does not hold the
    value; otherwise its answer is an index of the array, that index holds
    the value and no smaller index does. *)
Theorem indexOf_is_first_index (arr : list FnRef) (x : FnRef) :
  (Array.indexOf arr x = (-1)%Z /\ ~ In x arr)
  \/
  ((0 <= Array.indexOf arr x < Z.of_nat (length arr))%Z /\
   nth_error arr (Z.to_nat (Array.indexOf arr x)) = Some x /\
   forall j, (j < Z.to_nat (Array.indexOf arr x))%nat -> nth_error arr j <> Some x).
Proof.
  destruct (in_dec Nat.eq_dec x arr) as [Hin|Hn].
  - right. destruct (first_occurrence _ _ Hin) as (before & after & -> & Hb).
    unfold Array.indexOf. rewrite indexOf_from_first by exact Hb.
    rewrite Z.add_0_l, Nat2Z.id, length_app. simpl length.
    split; [lia|]. split.
    + rewrite nth_error_app2 by lia. rewrite Nat.sub_diag. reflexivity.
    + intros j Hj Hnth. rewrite nth_error_app1 in Hnth by exact Hj.
      apply Hb. eapply nth_error_In. exact Hnth.
  - left. split; [|exact Hn]. unfold Array.indexOf.
    apply indexOf_from_absent. exact Hn.
Qed.

(** ** Constructing the game *)

(** X12: a constructor that throws leaves no trace: the host is as before
    (no frame requested, no clock reading, nothing drawn), and it throws
    only the "not found" error, when the document has no canvas, or the
    WebGL error, when the canvas yields neither a WebGL2 nor a WebGL
    context. *)
Theorem constructor_failure_leaves_host_unchanged (h h' : Host) (e : JS.Error) :
  new_Game h = (JS.Throw e, h') ->
  h' = h /\
  ((lunasCanvas h = None /\ e = canvas_not_found) \/
   (exists canvas,
       lunasCanvas h = Some canvas /\ webgl2 canvas = None /\ webgl canvas = None /\
       e = webgl_unavailable)).
Proof.
  unfold new_Game, getGLContext.
  destruct (lunasCanvas h) as [canvas|] eqn:Hc.
  - destruct (webgl2 canvas) as [ctx|] eqn:H2; [discriminate|].
    destruct (webgl canvas) as [ctx|] eqn:H1; [discriminate|].
    intros H. injection H as <- <-. split; [reflexivity|].
    right. exists canvas. repeat split; assumption.
  - intros H. injection H as <- <-. split; [reflexivity|].
    left. split; reflexivity.
Qed.

Lemma constructor_failure_leaves_host_unchanged_witness :
  set_lunasCanvas (Some (mkCanvas None None)) still_host
  = set_lunasCanvas (Some (mkCanvas None None)) still_host /\
  ((lunasCanvas (set_lunasCanvas (Some (mkCanvas None None)) still_host) = None /\
    webgl_unavailable = canvas_not_found) \/
   (exists canvas,
       lunasCanvas (set_lunasCanvas (Some (mkCanvas None None)) still_host) = Some canvas /\
       webgl2 canvas = None /\ webgl canvas = None /\
       webgl_unavailable = webgl_unavailable)).
Proof.
  apply (constructor_failure_leaves_host_unchanged
           (set_lunasCanvas (Some (mkCanvas None None)) still_host)
           (set_lunasCanvas (Some (mkCanvas None None)) still_host)
           webgl_unavailable eq_refl).
Defined.

(** X13: with a canvas that yields some context the constructor succeeds:
    the game holds the WebGL2 context when there is one and the WebGL
    context otherwise, its last frame time is 0, and the only effect on the
    host is one more requested frame, the first frame of the loop, behind
    those already pending. *)
Theorem constructor_prefers_webgl2 (h : Host) (canvas : Canvas) :
  lunasCanvas h = Some canvas ->
  (webgl2 canvas <> None \/ webgl canvas <> None) ->
  exists g,
    new_Game h
    = (JS.Normal g,
       mkHost (clock h) (clock_reads h) (lunasCanvas h) (raf h ++ [FirstFrame]) (log h)) /\
    Some (gl g) = match webgl2 canvas with Some ctx => Some ctx | None => webgl canvas end /\
    lastFrameTime g = 0%Q.
Proof.
  intros Hc Hctx. unfold new_Game, getGLContext. rewrite Hc.
  destruct (webgl2 canvas) as [ctx2|].
  - eexists. repeat split.
  - destruct (webgl canvas) as [ctx1|].
    + eexists. repeat split.
    + destruct Hctx as [H|H]; contradiction.
Qed.

Lemma constructor_prefers_webgl2_witness :
  exists g,
    new_Game (set_lunasCanvas (Some (mkCanvas (Some WebGL2) (Some WebGL1))) still_host)
    = (JS.Normal g,
       mkHost (clock still_host) (clock_reads still_host)
         (Some (mkCanvas (Some WebGL2) (Some WebGL1))) [FirstFrame] (log still_host)) /\
    Some (gl g) = Some WebGL2 /\
    lastFrameTime g = 0%Q.
Proof.
  apply (constructor_prefers_webgl2
           (set_lunasCanvas (Some (mkCanvas (Some WebGL2) (Some WebGL1))) still_host)
           (mkCanvas (Some WebGL2) (Some WebGL1)) eq_refl).
  left. discriminate.
Defined.

(** ** Runs of the loop *)

(** X14: a running loop keeps exactly one frame pending: after every tick
    the scheduler holds the frame that [loop] requested, and nothing else;
    the same holds of the loop that dispatches to subscribers. *)
Theorem one_frame_pending_after_every_tick
    (body : FnRef -> list Q -> list Stmt) (s : Runtime) (f : Frame) (n : nat) :
  raf (host s) = [f] ->
  raf (host (ticks (S n) s)) = [LoopFrame] /\
  raf (host (ticks_dispatching body (S n) s)) = [LoopFrame].
Proof.
  intros Hone. split.
  - exact (run_one_frame tick tick_frame_step s f n Hone).
  - exact (run_one_frame _ (tick_dispatching_frame_step body) s f n Hone).
Qed.

Lemma one_frame_pending_after_every_tick_witness :
  raf (host (ticks 4 (running_game advancing_clock (mkCallbacks [1] [2] [] [] []))))
  = [LoopFrame] /\
  raf (host (ticks_dispatching quiet 4
               (running_game advancing_clock (mkCallbacks [1] [2] [] [] []))))
  = [LoopFrame].
Proof.
  apply (one_frame_pending_after_every_tick quiet
           (running_game advancing_clock (mkCallbacks [1] [2] [] [] [])) FirstFrame 3).
  reflexivity.
Defined.

(** X15: in a run of a newly constructed game the first tick reads the
    clock twice and every later tick once; after each tick the last frame
    time is the latest reading; [update] was called once per tick; and the
    WebGL context, the clock and the canvas are those of the start. The
    same holds of the loop that dispatches to subscribers. *)
Theorem run_consumes_one_reading_per_tick
    (body : FnRef -> list Q -> list Stmt) (s : Runtime) (n : nat) :
  raf (host s) = [FirstFrame] ->
  (let s' := ticks (S n) s in
   clock_reads (host s') = (clock_reads (host s) + n + 2)%nat /\
   lastFrameTime (this s') = clock (host s) (clock_reads (host s) + n + 1)%nat /\
   length (deltas (log (host s'))) = (length (deltas (log (host s))) + S n)%nat /\
   gl (this s') = gl (this s) /\
   clock (host s') = clock (host s) /\
   lunasCanvas (host s') = lunasCanvas (host s)) /\
  let s' := ticks_dispatching body (S n) s in
  clock_reads (host s') = (clock_reads (host s) + n + 2)%nat /\
  lastFrameTime (this s') = clock (host s) (clock_reads (host s) + n + 1)%nat /\
  length (deltas (log (host s'))) = (length (deltas (log (host s))) + S n)%nat /\
  gl (this s') = gl (this s) /\
  clock (host s') = clock (host s) /\
  lunasCanvas (host s') = lunasCanvas (host s).
Proof.
  intros Hfirst. split.
  - exact (run_reads tick tick_frame_step s n Hfirst).
  - exact (run_reads _ (tick_dispatching_frame_step body) s n Hfirst).
Qed.

Lemma run_consumes_one_reading_per_tick_witness :
  clock_reads (host (ticks 3 (running_game advancing_clock no_callbacks))) = 4%nat /\
  lastFrameTime (this (ticks 3 (running_game advancing_clock no_callbacks)))
  = advancing_clock 3 /\
  clock_reads (host (ticks_dispatching quiet 3 (running_game advancing_clock no_callbacks)))
  = 4%nat.
Proof.
  pose proof (run_consumes_one_reading_per_tick quiet
                (running_game advancing_clock no_callbacks) 2 eq_refl)
    as ((Hrd & Hlast & _) & Hrd' & _).
  split; [exact Hrd|]. split; [exact Hlast | exact Hrd'].
Defined.

(** X17: when the clock never goes back, no tick of a newly constructed
    game hands a negative delta to [update]; the same holds of the loop
    that dispatches to subscribers. *)
Theorem monotone_clock_gives_nonnegative_deltas
    (body : FnRef -> list Q -> list Stmt) (s : Runtime) (n : nat) :
  raf (host s) = [FirstFrame] ->
  (forall i, (clock (host s) i <= clock (host s) (S i))%Q) ->
  Forall (fun dt => (0 <= dt)%Q) (deltas (log (host s))) ->
  Forall (fun dt => (0 <= dt)%Q) (deltas (log (host (ticks n s)))) /\
  Forall (fun dt => (0 <= dt)%Q) (deltas (log (host (ticks_dispatching body n s)))).
Proof.
  intros Hfirst Hmono Hstart. split.
  - exact (run_monotone tick tick_frame_step s n Hfirst Hmono Hstart).
  - exact (run_monotone _ (tick_dispatching_frame_step body) s n Hfirst Hmono Hstart).
Qed.

Lemma advancing_clock_monotone (i : nat) :
  (advancing_clock i <= advancing_clock (S i))%Q.
Proof.
  unfold advancing_clock. rewrite Nat2Z.inj_succ. unfold Z.succ.
  rewrite inject_Z_plus. unfold Qdiv. change (/ 10)%Q with (1 # 10)%Q.
  change (inject_Z 1) with 1%Q. lra.
Qed.

Lemma monotone_clock_gives_nonnegative_deltas_witness :
  Forall (fun dt => (0 <= dt)%Q)
    (deltas (log (host (ticks 3 (running_game advancing_clock no_callbacks))))) /\
  Forall (fun dt => (0 <= dt)%Q)
    (deltas (log (host (ticks_dispatching quiet 3
                          (running_game advancing_clock no_callbacks))))).
Proof.
  apply (monotone_clock_gives_nonnegative_deltas quiet
           (running_game advancing_clock no_callbacks) 3 eq_refl
           advancing_clock_monotone).
  constructor.
Defined.
